(** * ANAC open-data downloader: URL catalogue and CSV consolidation

    A shallow embedding of [01_anac_od_download.py] and the proofs of the
    properties its specification states about [url_generate],
    [normalize_prefix] and [merge_csv_files].

    Conventions of the embedding.
    - A Python [str] is a [string]: a sequence of code points below 256.
      In that range the regular-expression class [\d] is exactly [0-9]
      and the white space accepted by [int()] is the set of [int_space].
    - A Python [int] is a [Z].
    - A raised exception is the [Raise] case of [result]; the exception
      classes are those the modelled calls can raise.
    - The file system is a finite map from absolute, resolved paths (the
      lists of their components) to nodes; symbolic links, permissions,
      relative paths and [..] are resolved outside the model, and the
      bytes of a file are taken to be valid text in the locale's encoding.
    - [print] appends one line to the [stdout] of the world. *)

From Stdlib Require Import ZArith Ascii String List Lia DecimalString.
From stdpp Require Import base tactics option list list_numbers sorting
  countable strings gmap fin_maps fin_map_dom.

Local Open Scope string_scope.
Local Open Scope Z_scope.
Local Open Scope list_scope.

(** ** Exceptions and results *)

Inductive exn : Type :=
  | ValueError
  | FileExistsError
  | FileNotFoundError
  | NotADirectoryError
  | IsADirectoryError.

Inductive result (A : Type) : Type :=
  | Ok (a : A)
  | Raise (e : exn).
Arguments Ok {A} a.
Arguments Raise {A} e.

Global Instance result_ret : MRet result := λ A a, Ok a.
Global Instance result_bind : MBind result := λ A B k r,
  match r with
  | Ok a => k a
  | Raise e => Raise e
  end.

Definition of_option {A} (e : exn) (o : option A) : result A :=
  match o with
  | Some a => Ok a
  | None => Raise e
  end.

(** ** Python string primitives *)

Module PyStr.

Definition code (c : ascii) : nat := nat_of_ascii c.

Definition is_digit (c : ascii) : bool :=
  (Nat.leb 48 (code c)) && (Nat.leb (code c) 57).

Definition digit_val (c : ascii) : Z := Z.of_nat (code c) - 48.

(** [s.startswith(p)] *)
Fixpoint startswith (p s : string) : bool :=
  match p, s with
  | EmptyString, _ => true
  | String _ _, EmptyString => false
  | String a p', String b s' => Ascii.eqb a b && startswith p' s'
  end.

(** [t in s] *)
Fixpoint contains (t s : string) : bool :=
  startswith t s ||
  match s with
  | EmptyString => false
  | String _ s' => contains t s'
  end.

(** [s.endswith(suf)] *)
Definition endswith (suf s : string) : bool :=
  startswith suf
    (substring (String.length s - String.length suf) (String.length suf) s)
  && Nat.leb (String.length suf) (String.length s).

(** [s.replace(old, new)] for a non-empty [old]: the occurrences of [old]
    are found from the left and do not overlap.  [skip] counts the
    characters of the current occurrence still to be dropped. *)
Fixpoint replace_go (old new : string) (skip : nat) (s : string) : string :=
  match s with
  | EmptyString => EmptyString
  | String c s' =>
      match skip with
      | S k => replace_go old new k s'
      | O =>
          if startswith old s
          then new +:+ replace_go old new (String.length old - 1) s'
          else String c (replace_go old new 0 s')
      end
  end.

(** With an empty [old], Python puts [new] before every character and at
    the end. *)
Fixpoint intersperse (new s : string) : string :=
  match s with
  | EmptyString => new
  | String c s' => new +:+ String c (intersperse new s')
  end.

Definition replace (old new s : string) : string :=
  match old with
  | EmptyString => intersperse new s
  | String _ _ => replace_go old new 0 s
  end.

(** *** [int(s)] in base ten *)

Definition int_space (c : ascii) : bool :=
  match code c with
  | 9 | 10 | 11 | 12 | 13 | 32 | 133 | 160 => true
  | _ => false
  end%nat.

Fixpoint lstrip (s : string) : string :=
  match s with
  | EmptyString => EmptyString
  | String c s' => if int_space c then lstrip s' else s
  end.

Fixpoint rstrip (s : string) : string :=
  match s with
  | EmptyString => EmptyString
  | String c s' =>
      match rstrip s' with
      | EmptyString => if int_space c then EmptyString else String c EmptyString
      | r => String c r
      end
  end.

(** Digits with single underscores between them; [prev] tells whether the
    previous character was a digit. *)
Fixpoint int_digits (acc : Z) (prev : bool) (s : string) : option Z :=
  match s with
  | EmptyString => if prev then Some acc else None
  | String c s' =>
      if is_digit c then int_digits (10 * acc + digit_val c) true s'
      else if Ascii.eqb c "_" then
        if prev then int_digits acc false s' else None
      else None
  end.

Definition int (s : string) : result Z :=
  of_option ValueError
    match lstrip (rstrip s) with
    | String "-" r => Z.opp <$> int_digits 0 false r
    | String "+" r => int_digits 0 false r
    | r => int_digits 0 false r
    end.

(** *** [f"{n:0w}"] *)

Definition decimal (n : Z) : string :=
  NilZero.string_of_uint (N.to_uint (Z.to_N (Z.abs n))).

Fixpoint zeros (k : nat) : string :=
  match k with
  | O => EmptyString
  | S k' => String "0" (zeros k')
  end.

Definition zfill (w : nat) (s : string) : string :=
  zeros (w - String.length s) +:+ s.

(** Format specification [0w]: sign first, then zeros up to width [w]. *)
Definition format0 (w : nat) (n : Z) : string :=
  if n <? 0 then String "-" (zfill (w - 1) (decimal n))
  else zfill w (decimal n).

End PyStr.

(** ** URL catalogue generation *)

Module Url.
Import PyStr.

(** The body of the innermost loop. *)
Definition expand (pattern year_str month_str day_str key : string) : string :=
  let url :=
    replace "{DD}" day_str
      (replace "{MM}" month_str
         (replace "{YYYY}" year_str pattern)) in
  if contains "{dataset-name}" url
  then replace "{dataset-name}" key url
  else url.

(** [for pattern in url_base: ... list_url.append(url)] *)
Fixpoint for_patterns (url_base : list string)
    (year_str month_str day_str key : string)
    (list_url : list string) : list string :=
  match url_base with
  | [] => list_url
  | pattern :: rest =>
      for_patterns rest year_str month_str day_str key
        (list_url ++ [expand pattern year_str month_str day_str key])
  end.

(** [for month in list_months: ...] *)
Fixpoint for_months (list_months : list string) (year_str : string)
    (url_base : list string) (key day : string)
    (list_url : list string) : result (list string) :=
  match list_months with
  | [] => Ok list_url
  | month :: rest =>
      m ← int month ;
      d ← int day ;
      for_months rest year_str url_base key day
        (for_patterns url_base year_str (format0 2 m) (format0 2 d) key
           list_url)
  end.

(** [for year in range(year_start, year_end + 1): ...] *)
Fixpoint for_years (years : list Z) (list_months url_base : list string)
    (key day : string) (list_url : list string) : result (list string) :=
  match years with
  | [] => Ok list_url
  | year :: rest =>
      l ← for_months list_months (format0 4 year) url_base key day list_url ;
      for_years rest list_months url_base key day l
  end.

(** [range(a, b)] *)
Definition range (a b : Z) : list Z := seqZ a (b - a).

Definition url_generate (year_start year_end : Z)
    (list_months url_base : list string) (key day : string)
    : result (list string) :=
  for_years (range year_start (year_end + 1)) list_months url_base key day [].

(** The loop of [main] over the other dataset names:
    [list_urls_others_din.extend(url_generate(..., dataset_name))]. *)
Fixpoint for_dataset_names (names : list string) (year_start year_end : Z)
    (list_months url_base : list string) (acc : list string)
    : result (list string) :=
  match names with
  | [] => Ok acc
  | dataset_name :: rest =>
      l ← url_generate year_start year_end list_months url_base
            dataset_name "01" ;
      for_dataset_names rest year_start year_end list_months url_base
        (acc ++ l)
  end.

End Url.

(** ** Regular expressions of the shape used by [normalize_prefix]

    A pattern is a non-empty sequence of one-character atoms, optionally
    anchored by [^] in front and by [$] behind.  Without the MULTILINE flag
    [^] matches at the start of the string only, and [$] matches at the end
    of the string and just before a newline that ends the string. *)

Module Re.
Import PyStr.

Inductive atom : Type :=
  | Digit                 (* \d *)
  | Char (c : ascii).     (* a literal character *)

Record pattern : Type := Pattern {
  caret : bool;
  atoms : list atom;
  dollar : bool
}.

Definition atom_matches (a : atom) (c : ascii) : bool :=
  match a with
  | Digit => is_digit c
  | Char d => Ascii.eqb d c
  end.

(** Matches the atoms at the head of [s] and returns what follows. *)
Fixpoint match_atoms (l : list atom) (s : string) : option string :=
  match l with
  | [] => Some s
  | a :: l' =>
      match s with
      | EmptyString => None
      | String c s' => if atom_matches a c then match_atoms l' s' else None
      end
  end.

Definition dollar_ok (rest : string) : bool :=
  match rest with
  | EmptyString => true
  | String c EmptyString => Ascii.eqb c "010"
  | _ => false
  end.

(** Does the pattern match at the head of [s]?  [first] tells whether the
    head of [s] is the start of the whole string. *)
Definition match_at (p : pattern) (first : bool) (s : string) : bool :=
  implb (caret p) first &&
  match match_atoms (atoms p) s with
  | Some rest => implb (dollar p) (dollar_ok rest)
  | None => false
  end.

(** [re.sub(p, repl, s)] with a literal [repl]: every match, found from the
    left and not overlapping the previous one, is replaced. *)
Fixpoint sub_go (p : pattern) (repl : string) (first : bool) (skip : nat)
    (s : string) : string :=
  match s with
  | EmptyString => EmptyString
  | String c s' =>
      match skip with
      | S k => sub_go p repl false k s'
      | O =>
          if match_at p first s
          then repl +:+ sub_go p repl false (length (atoms p) - 1) s'
          else String c (sub_go p repl false 0 s')
      end
  end.

Definition sub (p : pattern) (repl s : string) : string :=
  sub_go p repl true 0 s.

End Re.

(** ** The file system and the paths of [pathlib] *)

Module Fs.
Import PyStr.

Abbreviation path := (list string).

Inductive node : Type :=
  | Dir
  | File (content : string).

Global Instance node_eq_dec : EqDecision node.
Proof. solve_decision. Defined.

Record world : Type := World {
  fs : gmap path node;
  stdout : list string
}.

Definition with_fs (m : gmap path node) (w : world) : world :=
  {| fs := m; stdout := stdout w |}.

Definition print (line : string) (w : world) : world :=
  {| fs := fs w; stdout := stdout w ++ [line] |}.

(** The node at a path; the root always is a directory. *)
Definition node_at (m : gmap path node) (p : path) : option node :=
  match p with
  | [] => Some Dir
  | _ => m !! p
  end.

(** [p.is_dir()] *)
Definition is_dir (m : gmap path node) (p : path) : bool :=
  match node_at m p with
  | Some Dir => true
  | _ => false
  end.

(** [p.parent], [p.name], [str(p)] *)
Definition parent (p : path) : path := removelast p.

Definition name (p : path) : string := List.last p "".

Definition path_str (p : path) : string :=
  match p with
  | [] => "/"
  | _ => String.concat "" ((λ c, "/" +:+ c) <$> p)
  end.

(** [name.rfind('.')] *)
Fixpoint rfind_dot (s : string) : option nat :=
  match s with
  | EmptyString => None
  | String c s' =>
      match rfind_dot s' with
      | Some i => Some (S i)
      | None => if Ascii.eqb c "." then Some O else None
      end
  end.

(** [p.stem]: the name without its last suffix; a dot in first or last
    position does not start a suffix. *)
Definition stem (p : path) : string :=
  let name := name p in
  match rfind_dot name with
  | Some i =>
      if Nat.ltb 0 i && Nat.ltb i (String.length name - 1)
      then substring 0 i name
      else name
  | None => name
  end.

(** [p.mkdir(parents=True, exist_ok=True)]: the components are walked from
    the root; a missing one is created, a directory is entered, and a
    component that exists but is no directory raises. *)
Fixpoint mkdir_go (pre rest : path) (m : gmap path node)
    : result (gmap path node) :=
  match rest with
  | [] => Ok m
  | c :: rest' =>
      let p := pre ++ [c] in
      match m !! p with
      | None => mkdir_go p rest' (<[p := Dir]> m)
      | Some Dir => mkdir_go p rest' m
      | Some (File _) =>
          Raise (match rest' with
                 | [] => FileExistsError
                 | _ => NotADirectoryError
                 end)
      end
  end.

Definition mkdir_parents (p : path) (m : gmap path node)
    : result (gmap path node) :=
  mkdir_go [] p m.

(** The order of [PurePath] objects: the lists of components compared
    lexicographically, the components by code points. *)
Fixpoint parts_leb (p q : path) : bool :=
  match p, q with
  | [], _ => true
  | _ :: _, [] => false
  | a :: p', b :: q' =>
      if String.eqb a b then parts_leb p' q' else String.leb a b
  end.

Definition path_le (p q : path) : Prop := parts_leb p q = true.

Global Instance path_le_dec : RelDecision path_le.
Proof. intros p q. unfold path_le. apply _. Defined.

(** [dir.glob('*.csv')]: the entries directly under [dir], of whatever
    kind, whose name ends in [.csv]. *)
Definition csv_child (dir q : path) : Prop :=
  q ≠ [] ∧ parent q = dir ∧ endswith ".csv" (name q) = true.

Global Instance csv_child_dec dir q : Decision (csv_child dir q).
Proof. unfold csv_child. apply _. Defined.

Definition glob_csv (m : gmap path node) (dir : path) : list path :=
  filter (csv_child dir) (map_to_list m).*1.

(** [sorted(...)] *)
Definition sorted (l : list path) : list path := merge_sort path_le l.

(** Opening for writing creates or truncates the file. *)
Definition open_w (p : path) (m : gmap path node) : result (gmap path node) :=
  if is_dir m p then Raise IsADirectoryError
  else
    match node_at m (parent p) with
    | Some Dir => Ok (<[p := File ""]> m)
    | Some (File _) => Raise NotADirectoryError
    | None => Raise FileNotFoundError
    end.

(** Text mode with universal newlines: on reading, [\r\n] and a lone [\r]
    become [\n]; on writing, [\n] stays [\n] on POSIX. *)
Fixpoint universal_newlines (s : string) : string :=
  match s with
  | EmptyString => EmptyString
  | String c s' =>
      if Ascii.eqb c "013" then
        match s' with
        | String "010" _ => universal_newlines s'
        | _ => String "010" (universal_newlines s')
        end
      else String c (universal_newlines s')
  end.

(** [open(p).read()] *)
Definition read_text (p : path) (m : gmap path node) : result string :=
  match node_at m p with
  | Some (File content) => Ok (universal_newlines content)
  | Some Dir => Raise IsADirectoryError
  | None => Raise FileNotFoundError
  end.

(** The number of lines an iteration over a text yields: one per [\n],
    and one more for a last line without terminator. *)
Fixpoint count_lines (text : string) : nat :=
  match text with
  | EmptyString => O
  | String c s' =>
      if Ascii.eqb c "010" then S (count_lines s')
      else
        match s' with
        | EmptyString => 1%nat
        | _ => count_lines s'
        end
  end.

End Fs.

(** ** CSV consolidation *)

Module Merge.
Import PyStr Re Fs.

(** [r'^\d{8}-'] *)
Definition leading_date : pattern :=
  {| caret := true;
     atoms := replicate 8 Digit ++ [Char "-"];
     dollar := false |}.

(** [r'_\d{4}_\d{2}$'] *)
Definition trailing_period : pattern :=
  {| caret := false;
     atoms := [Char "_"] ++ replicate 4 Digit ++ [Char "_"] ++ replicate 2 Digit;
     dollar := true |}.

Definition normalize_prefix (file_stem : string) : string :=
  let normalized := sub leading_date "" file_stem in
  let normalized := sub trailing_period "" normalized in
  normalized.

Record MergeResult : Type := {
  output_file : string;
  files_merged : nat;
  lines : nat
}.

Definition str_nat (n : nat) : string := decimal (Z.of_nat n).

(** The list comprehension that selects the files of a prefix. *)
Definition matched_files (all_csv_files : list path) (prefix_name : string)
    : list path :=
  filter (λ csv_file, normalize_prefix (stem csv_file) = prefix_name)
    all_csv_files.

(** [for csv_file in matched_files: outfile.write(infile.read()); print(...)].
    What is written stays in [buf] until the output file is closed. *)
Fixpoint write_all (matched : list path) (prefix_name buf : string)
    (w : world) : result (string * world) :=
  match matched with
  | [] => Ok (buf, w)
  | csv_file :: rest =>
      text ← read_text csv_file (fs w) ;
      write_all rest prefix_name (buf +:+ text)
        (print ("Merged [" +:+ prefix_name +:+ "]: " +:+ name csv_file) w)
  end.

(** One iteration of [for prefix_name in prefixes]. *)
Definition merge_prefix (all_csv_files : list path) (output_path : path)
    (prefix_name : string) (st : gmap string MergeResult * world)
    : result (gmap string MergeResult * world) :=
  let matched := matched_files all_csv_files prefix_name in
  match matched with
  | [] => Ok st
  | _ :: _ =>
      let output_file := prefix_name +:+ ".csv" in
      let current_output_path := output_path ++ [output_file] in
      opened ← open_w current_output_path (fs st.2) ;
      written ← write_all matched prefix_name "" (with_fs opened st.2) ;
      let closed :=
        with_fs (<[current_output_path := File written.1]> (fs written.2))
          written.2 in
      text ← read_text current_output_path (fs closed) ;
      let lines := count_lines text in
      Ok (<[prefix_name :=
              {| output_file := path_str current_output_path;
                 files_merged := length matched;
                 lines := lines |}]> st.1,
          print ("Prefix '" +:+ prefix_name +:+ "' merged into '" +:+
                 output_file +:+ "' with " +:+ str_nat (length matched) +:+
                 " files and " +:+ str_nat lines +:+ " lines.") closed)
  end.

Fixpoint for_prefixes (prefixes : list string) (all_csv_files : list path)
    (output_path : path) (st : gmap string MergeResult * world)
    : result (gmap string MergeResult * world) :=
  match prefixes with
  | [] => Ok st
  | prefix_name :: rest =>
      st' ← merge_prefix all_csv_files output_path prefix_name st ;
      for_prefixes rest all_csv_files output_path st'
  end.

Definition source_warning (source_dir : path) : string :=
  "WARNING! Source directory " +:+ path_str source_dir +:+ " does not exist.".

Definition prefixes_warning : string :=
  "WARNING! No prefixes provided for merging.".

Definition merge_csv_files (source_dir output_dir : path)
    (prefixes : list string) (w : world)
    : result (gmap string MergeResult * world) :=
  let source_path := source_dir in
  let output_path := output_dir in
  made ← mkdir_parents output_path (fs w) ;
  let w := with_fs made w in
  if negb (is_dir (fs w) source_path) then
    Ok (∅, print (source_warning source_dir) w)
  else
    match prefixes with
    | [] => Ok (∅, print prefixes_warning w)
    | _ :: _ =>
        let all_csv_files := sorted (glob_csv (fs w) source_path) in
        for_prefixes prefixes all_csv_files output_path (∅, w)
    end.

End Merge.

(** ** Notions used in the statements *)

Module Notions.
Import PyStr Re Fs Merge.

(** *** Texts *)

(** What is left of [s] after its first [k] characters. *)
Fixpoint sdrop (k : nat) (s : string) : string :=
  match k, s with
  | O, _ => s
  | S _, EmptyString => EmptyString
  | S k', String _ s' => sdrop k' s'
  end.

(** The last character. *)
Fixpoint slast (s : string) : option ascii :=
  match s with
  | EmptyString => None
  | String c EmptyString => Some c
  | String _ s' => slast s'
  end.

(** Every character satisfies [f]. *)
Fixpoint sforall (f : ascii → bool) (s : string) : bool :=
  match s with
  | EmptyString => true
  | String c s' => f c && sforall f s'
  end.

(** A non-empty run of digits. *)
Definition digits1 (s : string) : bool :=
  match s with
  | EmptyString => false
  | String c r => is_digit c && sforall is_digit r
  end.

(** A non-empty run of digits, possibly after a minus sign. *)
Definition numeral (s : string) : bool :=
  digits1 s ||
  match s with
  | String "-" r => digits1 r
  | _ => false
  end.

(** *** Stamps of file stems *)

(** [m] is matched, character by character, by the atoms [l]. *)
Fixpoint fits (l : list atom) (m : string) : bool :=
  match l, m with
  | [], EmptyString => true
  | a :: l', String c m' => atom_matches a c && fits l' m'
  | _, _ => false
  end.

(** The stamps in the words of the specification. *)
Definition date_stamp (m : string) : Prop :=
  ∃ d, m = d +:+ "-" ∧ String.length d = 8%nat ∧ sforall is_digit d = true.

Definition period_stamp (m : string) : Prop :=
  ∃ y mo, m = "_" +:+ y +:+ "_" +:+ mo ∧
    String.length y = 4%nat ∧ sforall is_digit y = true ∧
    String.length mo = 2%nat ∧ sforall is_digit mo = true.

Definition newline : string := String "010" "".

(** The text begins with a date stamp. *)
Definition begins_with_date (s : string) : Prop :=
  ∃ m r, date_stamp m ∧ s = m +:+ r.

(** The text ends with a period stamp, or with a period stamp and the
    newline that ends the text. *)
Definition ends_with_period (s : string) : Prop :=
  ∃ r m, period_stamp m ∧ (s = r +:+ m ∨ s = r +:+ m +:+ newline).

(** *** File systems, runs and summaries *)

(** The concatenation of a list of texts. *)
Definition sconcat (l : list string) : string := foldr String.app "" l.

(** The path of the merged file of a prefix. *)
Definition out_path (output : path) (prefix_name : string) : path :=
  output ++ [prefix_name +:+ ".csv"].

(** Every entry lies in a directory. *)
Definition fs_wf (m : gmap path node) : Prop :=
  map_Forall (λ q _, is_dir m (parent q) = true) m.

Global Instance fs_wf_dec m : Decision (fs_wf m).
Proof. unfold fs_wf. apply _. Defined.

(** No carriage return in the text. *)
Definition no_cr (s : string) : bool :=
  sforall (λ c, negb (Ascii.eqb c "013")) s.

(** The number of lines of a file read as text. *)
Definition line_count (content : string) : nat :=
  count_lines (universal_newlines content).

(** The text of the file ends with a line terminator. *)
Definition terminated (content : string) : Prop :=
  slast (universal_newlines content) = Some "010"%char.


Definition summary_of (r : result (gmap string MergeResult * world))
    : option (gmap string MergeResult) :=
  match r with
  | Ok (mr, _) => Some mr
  | Raise _ => None
  end.

Definition final_of (r : result (gmap string MergeResult * world))
    : option world :=
  match r with
  | Ok (_, w) => Some w
  | Raise _ => None
  end.

Definition crlf : string := String "013" (String "010" "").

Definition crlf_world : world :=
  {| fs := <[ ["src"; "a.csv"] := File ("x" +:+ crlf +:+ "y" +:+ crlf) ]>
             (<[ ["src"] := Dir ]> ∅);
     stdout := [] |}.

(** The node a run leaves at a path. *)
Definition node_after (r : result (gmap string MergeResult * world))
    (p : path) : option node :=
  match r with
  | Ok (_, w) => fs w !! p
  | Raise _ => None
  end.

(** A run on which the theorems are exercised: two period files of one
    dataset, a file of another dataset, a directory with the name of a CSV
    file, and a file below the source directory. *)
Definition sample_world : world :=
  {| fs := <[ ["src"; "a_2024_02.csv"] :=
                File ("h" +:+ crlf +:+ "3" +:+ newline) ]>
             (<[ ["src"; "a_2024_01.csv"] :=
                   File ("h" +:+ newline +:+ "1" +:+ newline) ]>
                (<[ ["src"; "20240115-b.csv"] := File ("z" +:+ newline) ]>
                   (<[ ["src"; "old.csv"] := Dir ]>
                      (<[ ["src"; "deep"; "a_2024_03.csv"] := File "no" ]>
                         (<[ ["src"; "deep"] := Dir ]>
                            (<[ ["src"] := Dir ]> ∅))))));
     stdout := [] |}.

Definition sample_run : result (gmap string MergeResult * world) :=
  merge_csv_files ["src"] ["out"] ["a"; "c"] sample_world.

Definition sample_summary : gmap string MergeResult :=
  default ∅ (summary_of sample_run).

Definition sample_final : world :=
  default sample_world (final_of sample_run).

End Notions.

(** ** The catalogue of [main] and its listing *)

Module Main.
Import PyStr Url Fs Merge.

(** [list_months = [f"{i:02}" for i in range(1, 13)]] *)
Definition list_months : list string := (λ i, format0 2 i) <$> range 1 13.

(** [str(n)] for an [int] *)
Definition str_int (n : Z) : string :=
  if n <? 0 then String "-" (decimal n) else decimal n.

(** [for i, url in enumerate(list_urls, start=i): print(f"{i}) {url}")] *)
Fixpoint print_urls_from (i : Z) (list_urls : list string) (w : world)
    : world :=
  match list_urls with
  | [] => w
  | url :: rest =>
      print_urls_from (i + 1) rest (print (str_int i +:+ ") " +:+ url) w)
  end.

Definition print_list_urls (list_urls : list string) (w : world) : world :=
  print_urls_from 1 list_urls (print "List of URLs:" w).



End Main.

(** ** Further notions used in the statements *)

Module MoreNotions.
Import PyStr Re Fs Merge Notions.

(** The four placeholders of a URL pattern. *)
Definition placeholders : list string :=
  ["{YYYY}"; "{MM}"; "{DD}"; "{dataset-name}"].

(** The text holds none of the placeholders. *)
Definition placeholder_free (s : string) : Prop :=
  Forall (λ t, contains t s = false) placeholders.

(** Some character satisfies [f]. *)
Fixpoint sexists (f : ascii → bool) (s : string) : bool :=
  match s with
  | EmptyString => false
  | String c s' => f c || sexists f s'
  end.

(** The character occurs in a placeholder. *)
Definition in_placeholder (c : ascii) : bool :=
  contains (String c "") "{YYYY}{MM}{DD}{dataset-name}".

(** A key without brace that has a character of its own, one that is in
    no placeholder: [cig] is such a key. *)
Definition plain_key (key : string) : bool :=
  sforall (λ c, negb (Ascii.eqb c "{") && negb (Ascii.eqb c "}")) key &&
  sexists (λ c, negb (in_placeholder c)) key.

(** Inserting [new] into a text brings no occurrence of [t]. *)
Definition blocks (t new : string) : Prop :=
  ∀ x y, contains t (x +:+ new +:+ y) = true →
         contains t x = true ∨ contains t y = true.


(** The text read from the file at a path. *)
Definition text_at (m : gmap path node) (f : path) : string :=
  match m !! f with
  | Some (File content) => universal_newlines content
  | _ => ""
  end.

(** The texts of the files selected for a prefix, one after the other. *)
Definition merged_text (m : gmap path node) (all_csv_files : list path)
    (p : string) : string :=
  sconcat (text_at m <$> matched_files all_csv_files p).

(** The entry of a prefix in the summary. *)
Definition entry_of (m : gmap path node) (all_csv_files : list path)
    (output : path) (p : string) : MergeResult :=
  {| output_file := path_str (out_path output p);
     files_merged := length (matched_files all_csv_files p);
     lines := count_lines (universal_newlines (merged_text m all_csv_files p)) |}.

(** The sum of a list of numbers. *)
Definition total (l : list nat) : nat := foldr Nat.add 0%nat l.

End MoreNotions.

(** * Properties *)

(** ** Strings *)

Module StrFacts.
Import PyStr Notions.

Lemma sapp_nil_l (s : string) : "" +:+ s = s.
Proof. done. Qed.

Lemma sapp_cons (c : ascii) (a b : string) : String c a +:+ b = String c (a +:+ b).
Proof. done. Qed.

Lemma sapp_nil_r (s : string) : s +:+ "" = s.
Proof. induction s as [|c s IH]; [done|]. by rewrite sapp_cons, IH. Qed.

Lemma sapp_assoc (a b c : string) : (a +:+ b) +:+ c = a +:+ b +:+ c.
Proof. induction a as [|x a IH]; [done|]. by rewrite !sapp_cons, IH. Qed.

Lemma sapp_snoc (a b : string) (c : ascii) :
  (a +:+ String c "") +:+ b = a +:+ String c b.
Proof. by rewrite sapp_assoc. Qed.

Lemma slength_app (a b : string) :
  String.length (a +:+ b) = (String.length a + String.length b)%nat.
Proof. induction a as [|x a IH]; [done|]. rewrite sapp_cons. simpl. by rewrite IH. Qed.

Lemma sdrop_nil k : sdrop k "" = "".
Proof. by destruct k. Qed.

Lemma sdrop_app (a b : string) : sdrop (String.length a) (a +:+ b) = b.
Proof. induction a as [|x a IH]; [by destruct b|done]. Qed.

Lemma sforall_app f (a b : string) :
  sforall f (a +:+ b) = sforall f a && sforall f b.
Proof.
  induction a as [|x a IH]; [done|].
  rewrite sapp_cons. simpl. by rewrite IH, andb_assoc.
Qed.

Lemma eqb_true (a b : ascii) : Ascii.eqb a b = true → a = b.
Proof. apply Ascii.eqb_eq. Qed.

(** *** [startswith] and [contains] *)

Lemma startswith_app (p r : string) : startswith p (p +:+ r) = true.
Proof.
  induction p as [|a p IH]; [done|].
  rewrite sapp_cons. simpl. by rewrite Ascii.eqb_refl, IH.
Qed.

Lemma startswith_inv (p s : string) :
  startswith p s = true → s = p +:+ sdrop (String.length p) s.
Proof.
  revert s. induction p as [|a p IH]; intros s H.
  - by destruct s.
  - destruct s as [|b s]; simpl in H; [done|].
    apply andb_prop in H as [Hab H]. apply eqb_true in Hab as ->.
    rewrite sapp_cons. simpl. f_equal. by apply IH.
Qed.

Lemma startswith_weaken (t a b : string) :
  startswith t a = true → startswith t (a +:+ b) = true.
Proof.
  revert a. induction t as [|x t IH]; intros a H; [done|].
  destruct a as [|y a]; simpl in *; [done|].
  apply andb_prop in H as [-> H]. rewrite ?sapp_cons. simpl. by apply IH.
Qed.

Lemma contains_app_l (t a b : string) :
  contains t a = true → contains t (a +:+ b) = true.
Proof.
  induction a as [|y a IH]; intros H.
  - simpl in H. rewrite orb_false_r in H.
    destruct t; [|done]. by destruct b.
  - simpl in H. apply orb_prop in H as [H|H].
    + change (contains t (String y a +:+ b))
        with (startswith t (String y a +:+ b) || contains t (a +:+ b)).
      by rewrite (startswith_weaken _ _ _ H).
    + change (contains t (String y a +:+ b))
        with (startswith t (String y a +:+ b) || contains t (a +:+ b)).
      rewrite (IH H). apply orb_true_r.
Qed.

Lemma contains_app_r (t a b : string) :
  contains t b = true → contains t (a +:+ b) = true.
Proof.
  intros H. induction a as [|y a IH]; [done|].
  change (contains t (String y a +:+ b))
    with (startswith t (String y a +:+ b) || contains t (a +:+ b)).
  rewrite IH. apply orb_true_r.
Qed.

Lemma contains_sdrop (t s : string) k :
  contains t (sdrop k s) = true → contains t s = true.
Proof.
  revert s. induction k as [|k IH]; intros s H; [done|].
  destruct s as [|c s]; [done|]. simpl in H.
  change (contains t (String c s)) with (startswith t (String c s) || contains t s).
  rewrite (IH _ H). apply orb_true_r.
Qed.

Lemma contains_cons (t : string) c s :
  contains t (String c s) = startswith t (String c s) || contains t s.
Proof. done. Qed.

(** An occurrence of [t] cannot cover a character that is not in [t]. *)
Lemma startswith_through (t w y : string) c :
  sforall (λ x, negb (Ascii.eqb x c)) t = true →
  startswith t (w +:+ String c y) = true → startswith t w = true.
Proof.
  revert w. induction t as [|a t IH]; intros w Ht H; [done|].
  simpl in Ht. apply andb_prop in Ht as [Hac Ht].
  destruct w as [|e w]; simpl in H.
  - apply andb_prop in H as [H _]. by rewrite H in Hac.
  - apply andb_prop in H as [Hae H]. simpl. rewrite Hae. by apply IH.
Qed.

Lemma contains_through (t x y : string) c :
  sforall (λ a, negb (Ascii.eqb a c)) t = true →
  contains t (x +:+ String c y) = true →
  contains t x = true ∨ contains t y = true.
Proof.
  intros Ht. induction x as [|e x IH]; intros H.
  - change ("" +:+ String c y) with (String c y) in H.
    rewrite contains_cons in H. apply orb_prop in H as [H|H]; [|by right].
    left. destruct t as [|a t]; [done|]. simpl in H, Ht.
    apply andb_prop in H as [H _]. apply andb_prop in Ht as [Hac _].
    by rewrite H in Hac.
  - rewrite sapp_cons, contains_cons in H. apply orb_prop in H as [H|H].
    + left. rewrite contains_cons.
      rewrite <-sapp_cons in H. by rewrite (startswith_through _ _ _ _ Ht H).
    + destruct (IH H) as [?|?]; [left|by right].
      rewrite contains_cons. apply orb_true_intro. by right.
Qed.

(** An occurrence of [t] that ends with the last character of the text
    ends with the last character of [t]. *)
Lemma startswith_snoc (t w : string) c :
  startswith t (w +:+ String c "") = true →
  startswith t w = true ∨ slast t = Some c.
Proof.
  revert w. induction t as [|a t IH]; intros w H; [by left|].
  destruct w as [|e w]; simpl in H.
  - apply andb_prop in H as [H Ht]. apply eqb_true in H as ->.
    right. by destruct t.
  - apply andb_prop in H as [Hae H]. destruct (IH _ H) as [Hw|Hl].
    + left. simpl. by rewrite Hae.
    + right. simpl. by destruct t.
Qed.

Lemma contains_snoc (t x : string) c :
  slast t ≠ Some c →
  contains t (x +:+ String c "") = true → contains t x = true.
Proof.
  intros Ht. induction x as [|e x IH]; intros H.
  - change ("" +:+ String c "") with (String c "") in H.
    rewrite contains_cons in H. apply orb_prop in H as [H|H].
    + destruct (startswith_snoc t "" c H) as [?|?]; [|done].
      simpl. by rewrite orb_false_r.
    + simpl in H. rewrite orb_false_r in H. simpl. by rewrite H.
  - rewrite sapp_cons, contains_cons in H. rewrite contains_cons.
    apply orb_prop in H as [H|H].
    + rewrite <-sapp_cons in H.
      destruct (startswith_snoc _ _ _ H) as [->|?]; done.
    + rewrite (IH H). apply orb_true_r.
Qed.

End StrFacts.

(** ** URL catalogue generation *)

Module UrlFacts.
Import PyStr Url Notions StrFacts.

(** *** Numerals: what [format0] produces *)

Lemma string_of_uint_digits (u : Decimal.uint) :
  sforall is_digit (NilEmpty.string_of_uint u) = true.
Proof. induction u; simpl; auto. Qed.

Lemma decimal_digits1 (n : Z) : digits1 (decimal n) = true.
Proof.
  unfold decimal. generalize (N.to_uint (Z.to_N (Z.abs n))) as u.
  intros u. pose proof (string_of_uint_digits u) as H.
  destruct u; simpl in *; auto.
Qed.

Lemma digits1_sforall s : digits1 s = true → sforall is_digit s = true.
Proof. by destruct s. Qed.

Lemma zfill_digits1 w s : digits1 s = true → digits1 (zfill w s) = true.
Proof.
  intros H. unfold zfill. generalize (w - String.length s)%nat as k.
  intros k. destruct k as [|k]; [done|].
  change (zeros (S k) +:+ s) with (String "0" (zeros k +:+ s)).
  change (sforall is_digit (zeros k +:+ s) = true).
  induction k as [|k IH]; [by apply digits1_sforall|].
  change (zeros (S k) +:+ s) with (String "0" (zeros k +:+ s)).
  simpl. by rewrite IH.
Qed.

Lemma format0_numeral w n : numeral (format0 w n) = true.
Proof.
  unfold format0, numeral. destruct (n <? 0).
  - rewrite (zfill_digits1 _ _ (decimal_digits1 n)). apply orb_true_r.
  - by rewrite (zfill_digits1 _ _ (decimal_digits1 n)).
Qed.

Lemma format0_length w n : (w ≤ String.length (format0 w n))%nat.
Proof.
  assert (∀ k s, String.length (zeros k +:+ s) = (k + String.length s)%nat) as Hz.
  { intros k s. induction k as [|k IH]; [done|].
    change (zeros (S k) +:+ s) with (String "0" (zeros k +:+ s)).
    simpl. by rewrite IH. }
  unfold format0, zfill. destruct (n <? 0); simpl; rewrite Hz; lia.
Qed.

(** *** Substitution creates no placeholder *)

Lemma not_in_nil t : t ≠ "" → contains t "" = false.
Proof. by destruct t. Qed.

Lemma avoids_digit t c :
  sforall (λ a, negb (is_digit a)) t = true →
  is_digit c = true → sforall (λ a, negb (Ascii.eqb a c)) t = true.
Proof.
  intros Ht Hc. induction t as [|a r IH]; [done|].
  simpl in *. apply andb_prop in Ht as [Ha Hr].
  rewrite (IH Hr), andb_true_r.
  destruct (Ascii.eqb_spec a c) as [->|]; [|done]. by rewrite Hc in Ha.
Qed.

Section no_new_occurrence.
(** [t] is a text without digit that does not end in a minus sign, such
    as a placeholder. *)
Variable t : string.
Hypothesis t_nonempty : t ≠ "".
Hypothesis t_no_digit : sforall (λ a, negb (is_digit a)) t = true.
Hypothesis t_last : slast t ≠ Some "-"%char.

Lemma contains_after_digits ds y :
  sforall is_digit ds = true →
  contains t (ds +:+ y) = true → contains t y = true.
Proof using All.
  induction ds as [|d ds IH]; intros Hds H; [done|].
  simpl in Hds. apply andb_prop in Hds as [Hd Hds].
  rewrite sapp_cons in H.
  destruct (contains_through t "" (ds +:+ y) d (avoids_digit t d t_no_digit Hd) H)
    as [Hn|Hn].
  - by rewrite (not_in_nil t t_nonempty) in Hn.
  - by apply IH.
Qed.

Lemma contains_around_digits1 x new y :
  digits1 new = true →
  contains t (x +:+ new +:+ y) = true →
  contains t x = true ∨ contains t y = true.
Proof using All.
  destruct new as [|d ds]; [done|]. simpl. intros Hn H.
  apply andb_prop in Hn as [Hd Hds]. rewrite sapp_cons in H.
  destruct (contains_through t x _ d (avoids_digit t d t_no_digit Hd) H) as [?|Hy];
    [by left|right].
  by apply (contains_after_digits ds).
Qed.

Lemma contains_around_numeral x new y :
  numeral new = true →
  contains t (x +:+ new +:+ y) = true →
  contains t x = true ∨ contains t y = true.
Proof using All.
  unfold numeral. intros Hn H. apply orb_prop in Hn as [Hn|Hn].
  { by apply (contains_around_digits1 x new y). }
  destruct new as [|c r]; [done|].
  destruct (Ascii.eqb_spec c "-") as [->|Hc].
  2:{ exfalso. revert Hn. clear -Hc.
      destruct c as [[] [] [] [] [] [] [] []]; try done. }
  assert (digits1 r = true) as Hr by done.
  rewrite sapp_cons, <-sapp_snoc in H.
  destruct (contains_around_digits1 _ _ _ Hr H) as [Hx|?]; [left|by right].
  by apply (contains_snoc t x "-").
Qed.

(** Replacing by a numeral brings no occurrence of [t] into a text that
    had none. *)
Lemma replace_go_no_new old new s k out :
  numeral new = true →
  contains t (out +:+ sdrop k s) = false →
  contains t (out +:+ replace_go old new k s) = false.
Proof using All.
  intros Hn. revert k out. induction s as [|c s IH]; intros k out H.
  - by rewrite sdrop_nil in H.
  - destruct k as [|k]; simpl in *; [|by apply IH].
    destruct (startswith old (String c s)).
    + rewrite <-sapp_assoc. apply IH.
      apply not_true_is_false. rewrite sapp_assoc. intros Hc.
      apply (contains_around_numeral _ _ _ Hn) in Hc as [Hc|Hc].
      * by rewrite (contains_app_l _ _ _ Hc) in H.
      * apply contains_sdrop in Hc.
        rewrite (contains_app_r t out (String c s)) in H; [done|].
        rewrite contains_cons, Hc. apply orb_true_r.
    + rewrite <-sapp_snoc. apply IH. by rewrite sapp_snoc.
Qed.

Lemma replace_no_new old new s :
  old ≠ "" → numeral new = true →
  contains t s = false → contains t (replace old new s) = false.
Proof using All.
  intros Ho Hn H. destruct old as [|o old]; [done|].
  unfold replace. apply (replace_go_no_new _ _ _ 0%nat "" Hn H).
Qed.
End no_new_occurrence.

(** A pattern without [{dataset-name}] expands without looking at the key. *)
Lemma expand_without_dataset_name pattern y m d key1 key2 :
  contains "{dataset-name}" pattern = false →
  expand pattern (format0 4 y) (format0 2 m) (format0 2 d) key1 =
  expand pattern (format0 4 y) (format0 2 m) (format0 2 d) key2.
Proof.
  intros H. unfold expand.
  assert (contains "{dataset-name}"
            (replace "{DD}" (format0 2 d)
               (replace "{MM}" (format0 2 m)
                  (replace "{YYYY}" (format0 4 y) pattern))) = false) as ->.
  { repeat (apply replace_no_new; try done; try apply format0_numeral). }
  done.
Qed.

(** *** The formats and [int] on examples *)

Example format0_examples :
  format0 4 2021 = "2021" ∧ format0 4 987 = "0987" ∧ format0 2 1 = "01" ∧
  format0 2 12 = "12" ∧ format0 2 123 = "123" ∧ format0 4 (-1) = "-001".
Proof. by vm_compute. Qed.

Example int_examples :
  int "01" = Ok 1 ∧ int " 12 " = Ok 12 ∧ int "+7" = Ok 7 ∧
  int "-3" = Ok (-3) ∧ int "1_0" = Ok 10 ∧ int "" = Raise ValueError ∧
  int "1__0" = Raise ValueError ∧ int "x1" = Raise ValueError.
Proof. by vm_compute. Qed.

(** *** The loops *)

Ltac unbind := unfold mbind, result_bind, mret, result_ret in *.

Lemma for_patterns_eq url_base ys ms ds key list_url :
  for_patterns url_base ys ms ds key list_url =
  list_url ++ ((λ pattern, expand pattern ys ms ds key) <$> url_base).
Proof.
  revert list_url. induction url_base as [|p rest IH]; intros acc; simpl.
  - by rewrite app_nil_r.
  - by rewrite IH, <-app_assoc.
Qed.

Lemma for_months_app months ystr url_base key day acc l :
  for_months months ystr url_base key day acc = Ok l →
  ∃ t, l = acc ++ t ∧ length t = (length months * length url_base)%nat.
Proof.
  revert acc. induction months as [|month rest IH]; intros acc H; simpl in H.
  - exists []. simplify_eq. by rewrite app_nil_r.
  - unbind. destruct (int month) as [mv|]; [|done].
    destruct (int day) as [dv|]; [|done].
    apply IH in H as (t & -> & Ht). rewrite for_patterns_eq, <-app_assoc.
    eexists; split; [done|]. rewrite length_app, length_fmap. simpl. lia.
Qed.

Lemma for_months_lookup months ystr url_base key day acc l i month :
  for_months months ystr url_base key day acc = Ok l →
  months !! i = Some month →
  ∃ mv dv, int month = Ok mv ∧ int day = Ok dv ∧
    ∀ j pattern, url_base !! j = Some pattern →
      l !! (length acc + i * length url_base + j)%nat =
      Some (expand pattern ystr (format0 2 mv) (format0 2 dv) key).
Proof.
  revert acc i. induction months as [|m rest IH]; intros acc i H Hi; [done|].
  simpl in H. unbind.
  destruct (int m) as [mv|] eqn:Hm; [|done].
  destruct (int day) as [dv|] eqn:Hd; [|done].
  destruct i as [|i]; simpl in Hi.
  - simplify_eq. exists mv, dv. split_and!; [done..|].
    intros j pattern Hj.
    apply for_months_app in H as (t & -> & _).
    rewrite for_patterns_eq, <-app_assoc.
    rewrite Nat.mul_0_l, Nat.add_0_r.
    rewrite lookup_app_r by lia. rewrite lookup_app_l.
    2:{ rewrite length_fmap. apply lookup_lt_Some in Hj. lia. }
    replace (length acc + j - length acc)%nat with j by lia.
    by rewrite list_lookup_fmap, Hj.
  - destruct (IH _ _ H Hi) as (mv' & dv' & Hm' & Hd' & Hl).
    exists mv', dv'. split_and!; [done..|].
    intros j pattern Hj. rewrite <-(Hl j pattern Hj). f_equal.
    rewrite for_patterns_eq, length_app, length_fmap. lia.
Qed.


Lemma for_years_app years months url_base key day acc l :
  for_years years months url_base key day acc = Ok l →
  ∃ t, l = acc ++ t ∧
    length t = (length years * length months * length url_base)%nat.
Proof.
  revert acc. induction years as [|y rest IH]; intros acc H; simpl in H.
  - exists []. simplify_eq. by rewrite app_nil_r.
  - unbind.
    destruct (for_months months (format0 4 y) url_base key day acc)
      as [l1|] eqn:H1; [|done].
    apply for_months_app in H1 as (t1 & -> & Ht1).
    apply IH in H as (t & -> & Ht). rewrite <-app_assoc.
    eexists; split; [done|]. rewrite length_app. simpl. lia.
Qed.

Lemma for_years_lookup years months url_base key day acc l n y i month :
  for_years years months url_base key day acc = Ok l →
  years !! n = Some y →
  months !! i = Some month →
  ∃ mv dv, int month = Ok mv ∧ int day = Ok dv ∧
    ∀ j pattern, url_base !! j = Some pattern →
      l !! (length acc + (n * length months + i) * length url_base + j)%nat =
      Some (expand pattern (format0 4 y) (format0 2 mv) (format0 2 dv) key).
Proof.
  revert acc n. induction years as [|y0 rest IH]; intros acc n H Hn Hi; [done|].
  simpl in H. unbind.
  destruct (for_months months (format0 4 y0) url_base key day acc)
    as [l1|] eqn:H1; [|done].
  destruct n as [|n]; simpl in Hn.
  - simplify_eq.
    destruct (for_months_lookup _ _ _ _ _ _ _ _ _ H1 Hi)
      as (mv & dv & Hm & Hd & Hl).
    exists mv, dv. split_and!; [done..|]. intros j pattern Hj.
    apply for_years_app in H as (t & -> & _).
    rewrite lookup_app_l.
    + rewrite <-(Hl j pattern Hj). f_equal; lia.
    + apply for_months_app in H1 as (t1 & -> & Ht1).
      rewrite length_app, Ht1.
      apply lookup_lt_Some in Hj, Hi. nia.
  - destruct (IH _ _ H Hn Hi) as (mv & dv & Hm & Hd & Hl).
    exists mv, dv. split_and!; [done..|]. intros j pattern Hj.
    rewrite <-(Hl j pattern Hj). f_equal.
    apply for_months_app in H1 as (t1 & -> & Ht1).
    rewrite length_app, Ht1. lia.
Qed.


Lemma length_range a b : length (range a b) = Z.to_nat (b - a).
Proof. apply length_seqZ. Qed.




(** *** What [replace] computes *)

Lemma replace_go_skip old new a s :
  replace_go old new (String.length a) (a +:+ s) = replace_go old new 0 s.
Proof. induction a as [|c a IH]; [by destruct s|done]. Qed.

(** An occurrence at the head is replaced and the scan goes on behind it. *)
Lemma replace_hit c old new s :
  replace (String c old) new (String c old +:+ s) =
  new +:+ replace (String c old) new s.
Proof.
  unfold replace. rewrite sapp_cons. simpl.
  rewrite Ascii.eqb_refl, startswith_app. simpl.
  by rewrite Nat.sub_0_r, replace_go_skip.
Qed.

(** A character that starts no occurrence is kept. *)
Lemma replace_miss c old new a s :
  startswith (String c old) (String a s) = false →
  replace (String c old) new (String a s) =
  String a (replace (String c old) new s).
Proof. unfold replace. intros H. simpl in *. by rewrite H. Qed.

(** A text without occurrence is left as it is. *)
Lemma replace_absent old new s :
  old ≠ "" → contains old s = false → replace old new s = s.
Proof.
  intros Ho H. destruct old as [|c old]; [done|]. unfold replace.
  induction s as [|a s IH]; [done|].
  rewrite contains_cons in H. apply orb_false_elim in H as [H1 H2].
  pose proof H1 as H1'. simpl in H1'. simpl. rewrite H1'. by rewrite IH.
Qed.

(** The test before the last substitution changes nothing. *)
Lemma expand_eq pattern year_str month_str day_str key :
  expand pattern year_str month_str day_str key =
  replace "{dataset-name}" key
    (replace "{DD}" day_str
       (replace "{MM}" month_str
          (replace "{YYYY}" year_str pattern))).
Proof.
  unfold expand. cbv zeta.
  destruct (contains _ _) eqn:H; [done|].
  by rewrite (replace_absent "{dataset-name}").
Qed.

(** C2: the documented example, and the order of the catalogue in
    general: the URL of year [y], of the [i]-th month and of the [j]-th
    pattern stands at index [((y - year_start) * |months| + i) * |patterns| + j],
    and it is the pattern with [{YYYY}] replaced by the year formatted on
    four digits, [{MM}] and [{DD}] by the integer values of the month and
    of the day formatted on two digits, and [{dataset-name}] by the key. *)
Theorem url_generate_order :
  url_generate 2021 2021 ["01"; "02"]
    ["https://x/{dataset-name}/{YYYY}/{MM}.zip"] "cig" "01" =
  Ok ["https://x/cig/2021/01.zip"; "https://x/cig/2021/02.zip"] ∧
  ∀ ys ye months url_base key day l,
    url_generate ys ye months url_base key day = Ok l →
    ∀ y i j month pattern,
      ys ≤ y ≤ ye →
      months !! i = Some month →
      url_base !! j = Some pattern →
      ∃ mv dv, int month = Ok mv ∧ int day = Ok dv ∧
        l !! ((Z.to_nat (y - ys) * length months + i) * length url_base + j)%nat =
        Some (replace "{dataset-name}" key
                (replace "{DD}" (format0 2 dv)
                   (replace "{MM}" (format0 2 mv)
                      (replace "{YYYY}" (format0 4 y) pattern)))).
Proof.
  split; [by vm_compute|].
  intros ys ye months url_base key day l H y i j month pattern Hy Hi Hj.
  unfold url_generate in H.
  assert (range ys (ye + 1) !! Z.to_nat (y - ys) = Some y) as Hn.
  { unfold range. rewrite lookup_seqZ. lia. }
  destruct (for_years_lookup _ _ _ _ _ _ _ _ _ _ _ H Hn Hi)
    as (mv & dv & Hm & Hd & Hl).
  exists mv, dv. split_and!; [done..|].
  rewrite <-expand_eq. by apply Hl.
Qed.

Lemma url_generate_order_witness :
  ∃ mv dv, int "03" = Ok mv ∧ int "01" = Ok dv ∧
    ["a/2020/01"; "b/2020/01"; "a/2020/03"; "b/2020/03";
     "a/2021/01"; "b/2021/01"; "a/2021/03"; "b/2021/03"]
      !! ((Z.to_nat (2021 - 2020) * 2 + 1) * 2 + 0)%nat =
    Some (replace "{dataset-name}" "k"
            (replace "{DD}" (format0 2 dv)
               (replace "{MM}" (format0 2 mv)
                  (replace "{YYYY}" (format0 4 2021) "a/{YYYY}/{MM}")))).
Proof.
  destruct url_generate_order as [_ H].
  apply (H 2020 2021 ["01"; "03"] ["a/{YYYY}/{MM}"; "b/{YYYY}/{MM}"] "k" "01"
           _ eq_refl 2021 1%nat 0%nat "03" "a/{YYYY}/{MM}");
    [lia|reflexivity|reflexivity].
Defined.

(** *** Independence of the key *)

Lemma for_patterns_key url_base y m d key1 key2 acc :
  Forall (λ pattern, contains "{dataset-name}" pattern = false) url_base →
  for_patterns url_base (format0 4 y) (format0 2 m) (format0 2 d) key1 acc =
  for_patterns url_base (format0 4 y) (format0 2 m) (format0 2 d) key2 acc.
Proof.
  intros H. rewrite !for_patterns_eq. f_equal.
  apply Forall_fmap_ext_1. eapply Forall_impl; [done|].
  intros pattern Hp. by apply expand_without_dataset_name.
Qed.

Lemma for_months_key months y url_base key1 key2 day acc :
  Forall (λ pattern, contains "{dataset-name}" pattern = false) url_base →
  for_months months (format0 4 y) url_base key1 day acc =
  for_months months (format0 4 y) url_base key2 day acc.
Proof.
  intros H. revert acc. induction months as [|month rest IH]; intros acc; [done|].
  simpl. unbind. destruct (int month) as [mv|]; [|done].
  destruct (int day) as [dv|]; [|done].
  by rewrite (for_patterns_key _ _ _ _ key1 key2), IH.
Qed.

Lemma for_years_key years months url_base key1 key2 day acc :
  Forall (λ pattern, contains "{dataset-name}" pattern = false) url_base →
  for_years years months url_base key1 day acc =
  for_years years months url_base key2 day acc.
Proof.
  intros H. revert acc. induction years as [|y rest IH]; intros acc; [done|].
  simpl. unbind. rewrite (for_months_key _ _ _ key1 key2) by done.
  destruct (for_months _ _ _ key2 _ _); [apply IH|done].
Qed.

(** C9: when no pattern holds [{dataset-name}], the catalogue does not
    depend on the key, and the loop of [main] over the dataset names
    still expands the patterns once per name: its result is the same
    catalogue repeated as many times as there are names. *)
Theorem url_generate_key_independent ys ye months url_base :
  Forall (λ pattern, contains "{dataset-name}" pattern = false) url_base →
  (∀ day key1 key2,
     url_generate ys ye months url_base key1 day =
     url_generate ys ye months url_base key2 day) ∧
  (∀ names key l,
     url_generate ys ye months url_base key "01" = Ok l →
     for_dataset_names names ys ye months url_base [] =
     Ok (concat (replicate (length names) l))).
Proof.
  intros H.
  assert (∀ day key1 key2,
     url_generate ys ye months url_base key1 day =
     url_generate ys ye months url_base key2 day) as Hkey.
  { intros day key1 key2. by apply for_years_key. }
  split; [done|]. intros names key l Hl.
  enough (∀ acc, for_dataset_names names ys ye months url_base acc =
                 Ok (acc ++ concat (replicate (length names) l))) as He
    by apply (He []).
  induction names as [|name rest IH]; intros acc; simpl.
  - by rewrite app_nil_r.
  - unbind. rewrite (Hkey "01" name key), Hl, IH. by rewrite <-app_assoc.
Qed.

Lemma url_generate_key_independent_witness :
  (∀ day key1 key2,
     url_generate 2020 2021 ["01"; "02"] ["https://x/{YYYY}/{MM}.zip"] key1 day =
     url_generate 2020 2021 ["01"; "02"] ["https://x/{YYYY}/{MM}.zip"] key2 day) ∧
  (∀ names key l,
     url_generate 2020 2021 ["01"; "02"] ["https://x/{YYYY}/{MM}.zip"] key "01"
       = Ok l →
     for_dataset_names names 2020 2021 ["01"; "02"]
       ["https://x/{YYYY}/{MM}.zip"] [] =
     Ok (concat (replicate (length names) l))).
Proof.
  apply (url_generate_key_independent 2020 2021 ["01"; "02"]
           ["https://x/{YYYY}/{MM}.zip"]).
  repeat constructor.
Defined.

End UrlFacts.

(** ** The prefix normalizer *)

Module NormalizeFacts.
Import PyStr Re Fs Merge Notions StrFacts.

Lemma fits_length l m : fits l m = true → String.length m = length l.
Proof.
  revert m. induction l as [|a l IH]; intros [|c m] H; simpl in *; try done.
  apply andb_prop in H as [_ H]. by rewrite (IH _ H).
Qed.

Lemma fits_app l1 l2 m1 m2 :
  fits l1 m1 = true → fits (l1 ++ l2) (m1 +:+ m2) = fits l2 m2.
Proof.
  revert m1. induction l1 as [|a l1 IH]; intros [|c m1] H; simpl in *; try done.
  apply andb_prop in H as [-> H]. rewrite ?sapp_cons. simpl. by apply IH.
Qed.

Lemma fits_app_inv l1 l2 m :
  fits (l1 ++ l2) m = true →
  ∃ m1 m2, m = m1 +:+ m2 ∧ fits l1 m1 = true ∧ fits l2 m2 = true.
Proof.
  revert m. induction l1 as [|a l1 IH]; intros m H.
  - by exists "", m.
  - destruct m as [|c m]; simpl in H; [done|].
    apply andb_prop in H as [Ha H].
    destruct (IH _ H) as (m1 & m2 & -> & H1 & H2).
    exists (String c m1), m2. split_and!; [done| |done]. simpl. by rewrite Ha.
Qed.

Lemma fits_digits n d :
  fits (replicate n Digit) d = true ↔
  String.length d = n ∧ sforall is_digit d = true.
Proof.
  revert d. induction n as [|n IH]; intros [|c d]; simpl.
  - done.
  - split; [done|]. by intros [? _].
  - split; [done|]. by intros [? _].
  - rewrite !andb_true_iff, IH. split.
    + intros (? & <- & ?). done.
    + intros (Hl & ? & ?). by simplify_eq.
Qed.

Lemma fits_char c m : fits [Char c] m = true ↔ m = String c "".
Proof.
  destruct m as [|a [|b m]]; simpl.
  - done.
  - rewrite andb_true_r, Ascii.eqb_eq. split; [by intros ->|].
    intros H. by simplify_eq.
  - by rewrite andb_false_r.
Qed.

Lemma fits_leading_date m :
  fits (atoms leading_date) m = true ↔ date_stamp m.
Proof.
  unfold leading_date, date_stamp. cbn [atoms]. split.
  - intros H. apply fits_app_inv in H as (d & h & -> & Hd & Hh).
    apply fits_digits in Hd as [??]. apply fits_char in Hh as ->. by exists d.
  - intros (d & -> & Hl & Hd).
    rewrite fits_app by (by apply fits_digits). by apply fits_char.
Qed.

Lemma fits_trailing_period m :
  fits (atoms trailing_period) m = true ↔ period_stamp m.
Proof.
  unfold trailing_period, period_stamp. cbn [atoms]. split.
  - intros H. apply fits_app_inv in H as (u1 & m1 & -> & Hu1 & H).
    apply fits_app_inv in H as (y & m2 & -> & Hy & H).
    apply fits_app_inv in H as (u2 & mo & -> & Hu2 & Hmo).
    apply fits_char in Hu1 as ->, Hu2 as ->.
    apply fits_digits in Hy as [??], Hmo as [??]. by exists y, mo.
  - intros (y & mo & -> & Hy1 & Hy2 & Hm1 & Hm2).
    rewrite fits_app by (by apply fits_char).
    rewrite fits_app by (by apply fits_digits).
    rewrite fits_app by (by apply fits_char).
    by apply fits_digits.
Qed.

(** [match_atoms] splits the text into what fits the atoms and the rest. *)
Lemma match_atoms_fits l m rest :
  fits l m = true → match_atoms l (m +:+ rest) = Some rest.
Proof.
  revert m. induction l as [|a l IH]; intros [|c m] H; simpl in *; try done.
  apply andb_prop in H as [Ha H]. rewrite ?sapp_cons. simpl. rewrite Ha. by apply IH.
Qed.

Lemma match_atoms_inv l s rest :
  match_atoms l s = Some rest → ∃ m, s = m +:+ rest ∧ fits l m = true.
Proof.
  revert s. induction l as [|a l IH]; intros s H; simpl in H.
  - simplify_eq. by exists "".
  - destruct s as [|c s]; [done|].
    destruct (atom_matches a c) eqn:Ha; [|done].
    destruct (IH _ H) as (m & -> & Hm).
    exists (String c m). split; [done|]. simpl. by rewrite Ha.
Qed.

(** *** [re.sub] with an empty replacement *)

Lemma sub_go_skip p m s :
  m ≠ "" → ∀ first,
  sub_go p "" first (String.length m) (m +:+ s) = sub_go p "" false 0 s.
Proof.
  induction m as [|c m IH]; intros Hm first; [done|].
  rewrite sapp_cons. simpl. destruct m as [|c' m]; [by destruct s|].
  by apply IH.
Qed.

Lemma sub_go_length p first k s :
  (String.length (sub_go p "" first k s) ≤ String.length s)%nat.
Proof.
  revert first k. induction s as [|c s IH]; intros first k; simpl; [done|].
  destruct k as [|k].
  - destruct (match_at p first (String c s)).
    + rewrite sapp_nil_l. specialize (IH false (length (atoms p) - 1)%nat). lia.
    + simpl. specialize (IH false 0%nat). lia.
  - specialize (IH false k). lia.
Qed.

(** After the start of the text a pattern anchored by [^] is never found. *)
Lemma sub_go_caret p s :
  caret p = true → sub_go p "" false 0 s = s.
Proof.
  intros Hp. induction s as [|c s IH]; simpl; [done|].
  unfold match_at. rewrite Hp. simpl. by rewrite IH.
Qed.

(** The first rewrite: a leading date stamp is removed, and nothing else. *)
Lemma sub_leading_date s :
  sub leading_date "" s =
  match match_atoms (atoms leading_date) s with
  | Some rest => rest
  | None => s
  end.
Proof.
  unfold sub. destruct s as [|c s]; [done|].
  cbn [sub_go]. unfold match_at. cbn [caret dollar implb andb].
  destruct (match_atoms _ _) as [rest|] eqn:Hm.
  - cbn [implb]. rewrite sapp_nil_l.
    apply match_atoms_inv in Hm as (m & Hs & Hm).
    pose proof (fits_length _ _ Hm) as Hl.
    destruct m as [|c' m]; [done|]. rewrite sapp_cons in Hs. simplify_eq.
    simpl in Hl. replace (length (atoms leading_date) - 1)%nat
      with (String.length m) by (simpl in *; lia).
    rewrite sub_go_skip; [by apply sub_go_caret|].
    intros ->. done.
  - by rewrite sub_go_caret.
Qed.

Lemma sub_leading_date_present m r :
  date_stamp m → sub leading_date "" (m +:+ r) = r.
Proof.
  intros Hm. rewrite sub_leading_date.
  by rewrite match_atoms_fits by (by apply fits_leading_date).
Qed.

Lemma sub_leading_date_absent s :
  ¬ begins_with_date s → sub leading_date "" s = s.
Proof.
  intros Hs. rewrite sub_leading_date.
  destruct (match_atoms _ _) as [rest|] eqn:Hm; [|done].
  apply match_atoms_inv in Hm as (m & -> & Hm).
  destruct Hs. exists m, rest. split; [|done]. by apply fits_leading_date.
Qed.

Lemma dollar_ok_inv rest :
  dollar_ok rest = true → rest = "" ∨ rest = newline.
Proof.
  destruct rest as [|c [|c' rest]]; simpl; intros H; [by left| |done].
  right. apply Ascii.eqb_eq in H as ->. done.
Qed.

Lemma slast_app a b : b ≠ "" → slast (a +:+ b) = slast b.
Proof.
  intros Hb. induction a as [|c a IH]; [done|].
  rewrite sapp_cons. simpl. rewrite IH.
  destruct (a +:+ b) eqn:E; [|done].
  destruct a; [|done]. by rewrite sapp_nil_l in E.
Qed.

Lemma period_stamp_last m :
  period_stamp m → ∃ d, slast m = Some d ∧ is_digit d = true.
Proof.
  intros (y & mo & -> & _ & _ & Hl & Hd).
  destruct mo as [|a [|b [|c mo]]]; try done.
  exists b. rewrite <-!sapp_assoc, slast_app by done. split; [done|].
  simpl in Hd. by destruct (is_digit a), (is_digit b).
Qed.

Lemma period_stamp_length m : period_stamp m → String.length m = 8%nat.
Proof. intros H%fits_trailing_period%fits_length. done. Qed.

(** Inside the text, before the stamp that ends it, nothing is found. *)
Lemma no_match_before_stamp c r m first :
  period_stamp m →
  match_at trailing_period first (String c r +:+ m) = false ∧
  match_at trailing_period first (String c r +:+ m +:+ newline) = false.
Proof.
  intros Hm. pose proof (period_stamp_length _ Hm) as Hl.
  unfold match_at. cbn [caret dollar implb andb]. split.
  - destruct (match_atoms _ _) as [rest|] eqn:E; [|done].
    apply not_true_is_false. intros Hr.
    apply match_atoms_inv in E as (m0 & E & Hm0).
    apply fits_length in Hm0. pose proof (f_equal String.length E) as El.
    rewrite !slength_app in El. simpl in El, Hm0.
    apply dollar_ok_inv in Hr as [->| ->]; simpl in El; [lia|].
    assert (r = "") as -> by (destruct r; [done|simpl in El; lia]).
    pose proof (f_equal slast E) as Es.
    rewrite sapp_cons, sapp_nil_l in Es.
    rewrite (slast_app m0 newline) in Es by done.
    destruct (period_stamp_last _ Hm) as (d & Hd & Hdd).
    assert (slast (String c m) = slast m) as Hs.
    { destruct m; [done|done]. }
    rewrite Hs, Hd in Es. simpl in Es. by simplify_eq.
  - destruct (match_atoms _ _) as [rest|] eqn:E; [|done].
    apply not_true_is_false. intros Hr.
    apply match_atoms_inv in E as (m0 & E & Hm0).
    apply fits_length in Hm0. pose proof (f_equal String.length E) as El.
    rewrite !slength_app in El. simpl in El, Hm0.
    apply dollar_ok_inv in Hr as [->| ->]; simpl in El; lia.
Qed.

(** The second rewrite removes the period stamp that ends the text. *)
Lemma sub_trailing_period_present r m :
  period_stamp m → sub trailing_period "" (r +:+ m) = r.
Proof.
  intros Hm. unfold sub. generalize true as first.
  induction r as [|c r IH]; intros first.
  - rewrite sapp_nil_l. pose proof (period_stamp_length _ Hm) as Hl.
    destruct m as [|c m]; [done|]. cbn [sub_go].
    unfold match_at. cbn [caret dollar implb andb].
    rewrite <-(sapp_nil_r (String c m)) at 1.
    rewrite match_atoms_fits by (by apply fits_trailing_period).
    cbn [dollar_ok]. rewrite sapp_nil_l.
    rewrite <-(sapp_nil_r m).
    replace (length (atoms trailing_period) - 1)%nat with (String.length m)
      by (simpl in *; lia).
    rewrite sub_go_skip; [done|]. intros ->. done.
  - rewrite sapp_cons. cbn [sub_go].
    pose proof (no_match_before_stamp c r m first Hm) as [E _].
    rewrite sapp_cons in E. rewrite E. by rewrite IH.
Qed.

(** A newline that ends the text after the stamp stays, the stamp goes. *)
Lemma sub_trailing_period_newline r m :
  period_stamp m →
  sub trailing_period "" (r +:+ m +:+ newline) = r +:+ newline.
Proof.
  intros Hm. unfold sub. generalize true as first.
  induction r as [|c r IH]; intros first.
  - rewrite sapp_nil_l. pose proof (period_stamp_length _ Hm) as Hl.
    destruct m as [|c m]; [done|]. rewrite sapp_cons. cbn [sub_go].
    unfold match_at. cbn [caret dollar implb andb].
    rewrite <-sapp_cons.
    rewrite match_atoms_fits by (by apply fits_trailing_period).
    cbn [dollar_ok newline]. rewrite Ascii.eqb_refl, sapp_nil_l.
    replace (length (atoms trailing_period) - 1)%nat with (String.length m)
      by (simpl in *; lia).
    rewrite sub_go_skip; [done|]. intros ->. done.
  - rewrite sapp_cons. cbn [sub_go].
    pose proof (no_match_before_stamp c r m first Hm) as [_ E].
    rewrite sapp_cons in E. rewrite E, sapp_cons. by rewrite IH.
Qed.

(** Any other text is left as it is. *)
Lemma sub_trailing_period_absent s :
  ¬ ends_with_period s → sub trailing_period "" s = s.
Proof.
  unfold sub. generalize true as first.
  induction s as [|c s IH]; intros first Hs; [done|].
  cbn [sub_go].
  assert (match_at trailing_period first (String c s) = false) as ->.
  { unfold match_at. cbn [caret dollar implb andb].
    destruct (match_atoms _ _) as [rest|] eqn:E; [|done].
    apply not_true_is_false. intros Hr. destruct Hs.
    apply match_atoms_inv in E as (m & -> & Hm).
    exists "", m. split; [by apply fits_trailing_period|].
    rewrite !sapp_nil_l.
    apply dollar_ok_inv in Hr as [->| ->]; [left|by right].
    by rewrite sapp_nil_r. }
  rewrite IH; [done|]. intros (r & m & Hm & Hr). apply Hs.
  exists (String c r), m. split; [done|].
  rewrite !sapp_cons. destruct Hr as [->| ->]; auto.
Qed.

Lemma sub_length p s :
  (String.length (sub p "" s) ≤ String.length s)%nat.
Proof. apply sub_go_length. Qed.

(** C4: the two rewrites of [normalize_prefix].  A leading date stamp
    (eight digits and a hyphen) is removed when the stem begins with one
    and the stem is kept otherwise; a trailing period stamp (underscore,
    four digits, underscore, two digits) is removed when the text ends with
    one and a text that does not end with one is kept; the second rewrite
    is applied to the result of the first whatever the first did; and the
    three documented stems all normalize to [bando_cig]. *)
Theorem normalize_prefix_rewrites :
  (∀ d r, String.length d = 8%nat → sforall is_digit d = true →
     sub leading_date "" (d +:+ "-" +:+ r) = r) ∧
  (∀ s, ¬ begins_with_date s → sub leading_date "" s = s) ∧
  (∀ r y mo, String.length y = 4%nat → sforall is_digit y = true →
     String.length mo = 2%nat → sforall is_digit mo = true →
     sub trailing_period "" (r +:+ "_" +:+ y +:+ "_" +:+ mo) = r) ∧
  (∀ s, ¬ ends_with_period s → sub trailing_period "" s = s) ∧
  (∀ s, normalize_prefix s = sub trailing_period "" (sub leading_date "" s)) ∧
  normalize_prefix "20240115-bando_cig_2024_01" = "bando_cig" ∧
  normalize_prefix "bando_cig_2024_01" = "bando_cig" ∧
  normalize_prefix "bando_cig" = "bando_cig".
Proof.
  split_and!; try done.
  - intros d r Hl Hd. rewrite <-sapp_assoc.
    apply sub_leading_date_present. by exists d.
  - apply sub_leading_date_absent.
  - intros r y mo Hy1 Hy2 Hm1 Hm2.
    apply sub_trailing_period_present. by exists y, mo.
  - apply sub_trailing_period_absent.
Qed.

Lemma normalize_prefix_rewrites_witness :
  sub leading_date "" ("20240115" +:+ "-" +:+ "cig_2024_01") = "cig_2024_01" ∧
  sub trailing_period "" ("cig" +:+ "_" +:+ "2024" +:+ "_" +:+ "01") = "cig".
Proof.
  destruct normalize_prefix_rewrites as (H1 & _ & H3 & _).
  split.
  - apply (H1 "20240115" "cig_2024_01"); reflexivity.
  - apply (H3 "cig" "2024" "01"); reflexivity.
Defined.

(** [normalize_prefix] is not idempotent: each rewrite removes one stamp
    only, and a stem may carry two. *)
Lemma normalize_prefix_not_idempotent :
  ¬ ∀ x, normalize_prefix (normalize_prefix x) = normalize_prefix x.
Proof.
  intros H. specialize (H "20240115-20240115-a"). vm_compute in H. done.
Qed.

(** A fixed point of [normalize_prefix] is a text without stamp. *)
Lemma normalize_prefix_fixed y :
  normalize_prefix y = y ↔ ¬ begins_with_date y ∧ ¬ ends_with_period y.
Proof.
  unfold normalize_prefix. split.
  - intros H. split.
    + intros (m & r & Hm & ->). rewrite sub_leading_date_present in H by done.
      pose proof (sub_length trailing_period r) as Hl.
      rewrite H, slength_app in Hl.
      destruct Hm as (d & -> & Hd & _). rewrite slength_app in Hl.
      simpl in Hl. lia.
    + intros Hy.
      assert (sub leading_date "" y = y) as E.
      { rewrite sub_leading_date in H. rewrite sub_leading_date.
        destruct (match_atoms _ _) as [rest|] eqn:E; [|done].
        apply match_atoms_inv in E as (m & -> & Hm).
        apply fits_length in Hm.
        pose proof (sub_length trailing_period rest) as Hl.
        rewrite H, slength_app, Hm in Hl. simpl in Hl. lia. }
      rewrite E in H. destruct Hy as (r & m & Hm & [->| ->]).
      * rewrite sub_trailing_period_present in H by done.
        pose proof (f_equal String.length H) as Hl.
        rewrite slength_app, (period_stamp_length _ Hm) in Hl. lia.
      * rewrite sub_trailing_period_newline in H by done.
        pose proof (f_equal String.length H) as Hl.
        rewrite !slength_app, (period_stamp_length _ Hm) in Hl. lia.
  - intros [H1 H2]. rewrite sub_leading_date_absent by done.
    by apply sub_trailing_period_absent.
Qed.

(** C3 as amended: a second pass changes nothing exactly when the result
    of the first pass neither begins with a date stamp nor ends with a
    period stamp (the end of the text being allowed to be the newline behind
    the stamp). *)
Theorem normalize_prefix_idempotent_iff x :
  normalize_prefix (normalize_prefix x) = normalize_prefix x ↔
  ¬ begins_with_date (normalize_prefix x) ∧
  ¬ ends_with_period (normalize_prefix x).
Proof. apply normalize_prefix_fixed. Qed.

End NormalizeFacts.

(** ** The file system *)

Module FsFacts.
Import PyStr Fs Notions StrFacts.

(** *** The order of paths *)

Lemma string_eqb_sym (a b : string) : String.eqb a b = String.eqb b a.
Proof. apply String.eqb_sym. Qed.

Global Instance path_le_total : Total path_le.
Proof.
  intros p. unfold path_le. induction p as [|a p IH]; intros [|b q]; simpl; auto.
  rewrite (string_eqb_sym b a). destruct (String.eqb a b); [apply IH|].
  apply String.leb_total.
Qed.

Global Instance path_le_antisym : AntiSymm (=) path_le.
Proof.
  intros p. unfold path_le. induction p as [|a p IH]; intros [|b q]; simpl;
    try done.
  rewrite (string_eqb_sym b a).
  destruct (String.eqb_spec a b) as [->|Hab].
  - intros H1 H2. f_equal. by apply IH.
  - intros H1 H2. destruct Hab. by apply String.leb_antisym.
Qed.

Global Instance path_le_trans : Transitive path_le.
Proof.
  intros p. unfold path_le.
  induction p as [|a p IH]; intros [|b q] [|c r]; simpl; try done.
  destruct (String.eqb_spec a b) as [->|Hab].
  - destruct (String.eqb_spec b c) as [->|Hbc]; [apply IH|done].
  - destruct (String.eqb_spec b c) as [->|Hbc].
    + intros H _. destruct (String.eqb_spec a c); [done|done].
    + intros H1 H2. destruct (String.eqb_spec a c) as [->|Hac].
      * destruct Hab. by apply String.leb_antisym.
      * assert (String.le a c) as H; [|by apply Is_true_true in H].
        transitivity b; by apply Is_true_true.
Qed.

(** Among the entries of one directory the order is that of the names. *)
Lemma parts_leb_sibling dir a b :
  parts_leb (dir ++ [a]) (dir ++ [b]) = String.leb a b.
Proof.
  induction dir as [|c dir IH]; simpl.
  - destruct (String.eqb_spec a b) as [->|]; [|done].
    symmetry. pose proof (String.leb_total b b) as [?|?]; done.
  - by rewrite String.eqb_refl.
Qed.

Lemma sorted_Sorted l : Sorted path_le (sorted l).
Proof. apply (Sorted_merge_sort path_le). Qed.

Lemma sorted_Permutation l : sorted l ≡ₚ l.
Proof. apply (merge_sort_Permutation path_le). Qed.

Lemma elem_of_sorted l q : q ∈ sorted l ↔ q ∈ l.
Proof. by rewrite sorted_Permutation. Qed.

(** *** Paths *)

Lemma parent_snoc (dir : path) x : parent (dir ++ [x]) = dir.
Proof. apply removelast_last. Qed.

Lemma name_snoc (dir : path) x : name (dir ++ [x]) = x.
Proof. apply last_last. Qed.

Lemma csv_child_iff dir q :
  csv_child dir q ↔ ∃ x, q = dir ++ [x] ∧ endswith ".csv" x = true.
Proof.
  unfold csv_child. split.
  - intros (Hq & <- & He). exists (name q). split; [|done].
    by apply app_removelast_last.
  - intros (x & -> & He). rewrite parent_snoc, name_snoc.
    split_and!; [|done..]. by destruct dir.
Qed.

Lemma is_dir_true m q : is_dir m q = true ↔ q = [] ∨ m !! q = Some Dir.
Proof.
  unfold is_dir, node_at. destruct q as [|c q].
  - split; [by left|done].
  - destruct (m !! (c :: q)) as [[|?]|]; split; try done; try (by right);
      by intros [?|?].
Qed.

Lemma node_at_snoc m (dir : path) x : node_at m (dir ++ [x]) = m !! (dir ++ [x]).
Proof. by destruct dir. Qed.

(** *** [glob] *)

Lemma elem_of_glob_csv (m : gmap path node) dir q :
  q ∈ glob_csv m dir ↔ is_Some (m !! q) ∧ csv_child dir q.
Proof.
  unfold glob_csv. rewrite list_elem_of_filter, list_elem_of_fmap.
  split.
  - intros [Hc ([q' n] & -> & Hq)]. apply elem_of_map_to_list in Hq.
    split; [by eexists|done].
  - intros [[n Hn] Hc]. split; [done|]. exists (q, n). split; [done|].
    by apply elem_of_map_to_list.
Qed.

Lemma NoDup_glob_csv (m : gmap path node) dir : NoDup (glob_csv m dir).
Proof. apply NoDup_filter, NoDup_fst_map_to_list. Qed.

(** *** [mkdir] *)

Lemma mkdir_go_lookup pre rest m m' :
  mkdir_go pre rest m = Ok m' →
  ∀ q, m' !! q = m !! q ∨
       (m !! q = None ∧ m' !! q = Some Dir ∧ q `prefix_of` pre ++ rest).
Proof.
  revert pre m. induction rest as [|c rest IH]; intros pre m H q; simpl in H.
  { left. by simplify_eq. }
  destruct (m !! (pre ++ [c])) as [[|content]|] eqn:Hp; [| done |].
  - destruct (IH _ _ H q) as [?|(? & ? & ?)]; [by left|right].
    split_and!; [done..|]. by rewrite <-app_assoc in *.
  - destruct (IH _ _ H q) as [Hq|(Hq1 & Hq2 & Hq3)].
    + destruct (decide (q = pre ++ [c])) as [->|Hne].
      * right. rewrite lookup_insert_eq in Hq. split_and!; [done..|].
        apply prefix_app, prefix_cons, prefix_nil.
      * left. by rewrite lookup_insert_ne in Hq.
    + destruct (decide (q = pre ++ [c])) as [->|Hne].
      * by rewrite lookup_insert_eq in Hq1.
      * right. rewrite lookup_insert_ne in Hq1 by done.
        split_and!; [done..|]. by rewrite <-app_assoc in *.
Qed.

Lemma mkdir_go_dirs pre rest m m' :
  mkdir_go pre rest m = Ok m' →
  ∀ q, q `prefix_of` rest → q ≠ [] → m' !! (pre ++ q) = Some Dir.
Proof.
  revert pre m. induction rest as [|c rest IH]; intros pre m H q Hq Hne.
  { by apply prefix_nil_inv in Hq. }
  destruct q as [|c' q]; [done|].
  pose proof (prefix_cons_inv_1 _ _ _ _ Hq) as ->.
  apply prefix_cons_inv_2 in Hq. simpl in H.
  assert (∀ m2, m2 !! (pre ++ [c]) = Some Dir →
            mkdir_go (pre ++ [c]) rest m2 = Ok m' →
            m' !! (pre ++ c :: q) = Some Dir) as Hrec.
  { intros m2 Hm2 H2. destruct q as [|c2 q].
    - destruct (mkdir_go_lookup _ _ _ _ H2 (pre ++ [c])) as [->|(? & _)];
        [done|congruence].
    - rewrite (cons_middle c pre), app_assoc. by apply (IH _ _ H2). }
  destruct (m !! (pre ++ [c])) as [[|content]|] eqn:Hp; [| done |].
  - by apply (Hrec m).
  - apply (Hrec (<[pre ++ [c] := Dir]> m)); [|done]. apply lookup_insert_eq.
Qed.

Lemma mkdir_go_ok pre rest m :
  (∀ q content, q `prefix_of` rest → m !! (pre ++ q) ≠ Some (File content)) →
  ∃ m', mkdir_go pre rest m = Ok m'.
Proof.
  revert pre m. induction rest as [|c rest IH]; intros pre m H; simpl.
  { by eexists. }
  assert (∀ content, m !! (pre ++ [c]) ≠ Some (File content)) as Hc.
  { intros content. apply H, prefix_cons, prefix_nil. }
  destruct (m !! (pre ++ [c])) as [[|content]|] eqn:Hp.
  - apply IH. intros q content Hq. rewrite <-app_assoc. apply H.
    by apply prefix_cons.
  - by destruct (Hc content).
  - apply IH. intros q content Hq. destruct q as [|c2 q].
    + by rewrite app_nil_r, lookup_insert_eq.
    + rewrite lookup_insert_ne.
      * rewrite <-app_assoc. apply H. by apply prefix_cons.
      * intros E. apply (f_equal length) in E.
        rewrite !length_app in E. simpl in E. lia.
Qed.

(** Creating a directory keeps what was there. *)
Lemma mkdir_parents_kept p m m' q n :
  mkdir_parents p m = Ok m' → m !! q = Some n → m' !! q = Some n.
Proof.
  intros H Hq. destruct (mkdir_go_lookup _ _ _ _ H q) as [->|(? & _)];
    [done|congruence].
Qed.

(** It adds directories only, so that the files are the same. *)
Lemma mkdir_parents_file p m m' q content :
  mkdir_parents p m = Ok m' →
  m' !! q = Some (File content) ↔ m !! q = Some (File content).
Proof.
  intros H. destruct (mkdir_go_lookup _ _ _ _ H q) as [->|(? & ? & _)];
    [done|]. split; congruence.
Qed.

(** It touches the path and its ancestors only. *)
Lemma mkdir_parents_other p m m' q :
  mkdir_parents p m = Ok m' → ¬ q `prefix_of` p → m' !! q = m !! q.
Proof.
  intros H Hq. destruct (mkdir_go_lookup _ _ _ _ H q) as [->|(? & ? & ?)];
    done.
Qed.

(** Afterwards the path and its ancestors are directories. *)
Lemma mkdir_parents_is_dir p m m' q :
  mkdir_parents p m = Ok m' → q `prefix_of` p → is_dir m' q = true.
Proof.
  intros H Hq. apply is_dir_true. destruct q as [|c q]; [by left|right].
  by apply (mkdir_go_dirs [] p m m' H).
Qed.

(** It succeeds when no component of the path is a file... *)
Lemma mkdir_parents_ok p m :
  (∀ q content, q `prefix_of` p → m !! q ≠ Some (File content)) →
  ∃ m', mkdir_parents p m = Ok m'.
Proof. intros H. by apply mkdir_go_ok. Qed.

(** ... and only then. *)
Lemma mkdir_parents_ok_inv p m m' q content :
  mkdir_parents p m = Ok m' → q `prefix_of` p → q ≠ [] →
  m !! q ≠ Some (File content).
Proof.
  intros H Hq Hne Hf.
  pose proof (mkdir_parents_kept _ _ _ _ _ H Hf) as Hf'.
  pose proof (mkdir_go_dirs [] p m m' H q Hq Hne) as Hd.
  simpl in Hd. congruence.
Qed.

End FsFacts.

(** ** CSV consolidation *)

Module MergeFacts.
Import PyStr Re Fs Merge Notions StrFacts FsFacts.

Lemma sapp_inj_r (a b c : string) : a +:+ c = b +:+ c → a = b.
Proof.
  revert b. induction a as [|x a IH]; intros [|y b] H; [done| | |].
  - pose proof (f_equal String.length H) as Hl.
    rewrite !slength_app in Hl. simpl in Hl. lia.
  - pose proof (f_equal String.length H) as Hl.
    rewrite !slength_app in Hl. simpl in Hl. lia.
  - rewrite !sapp_cons in H. simplify_eq. f_equal. by apply IH.
Qed.

Lemma out_path_inj output p q : out_path output p = out_path output q → p = q.
Proof.
  unfold out_path. intros H. apply (inj (app output)) in H.
  simplify_eq. by eapply sapp_inj_r.
Qed.

Lemma out_path_ne_nil output p : out_path output p ≠ [].
Proof. unfold out_path. by destruct output. Qed.

Lemma sconcat_app l1 l2 : sconcat (l1 ++ l2) = sconcat l1 +:+ sconcat l2.
Proof.
  induction l1 as [|t l1 IH]; simpl; [done|]. by rewrite IH, sapp_assoc.
Qed.

(** *** The inner loop *)

Lemma write_all_inv matched prefix_name buf w buf' w' :
  write_all matched prefix_name buf w = Ok (buf', w') →
  fs w' = fs w ∧
  ∃ texts, Forall2 (λ f t, read_text f (fs w) = Ok t) matched texts ∧
    buf' = buf +:+ sconcat texts.
Proof.
  revert buf w. induction matched as [|f rest IH]; intros buf w H; simpl in H.
  - simplify_eq. split; [done|]. exists []. split; [constructor|].
    by rewrite sapp_nil_r.
  - unfold mbind, result_bind in H.
    destruct (read_text f (fs w)) as [text|] eqn:Hr; [|done].
    apply IH in H as (Hfs & texts & Hall & ->). split; [done|].
    exists (text :: texts). split; [by constructor|].
    simpl. by rewrite sapp_assoc.
Qed.

Lemma write_all_total matched prefix_name buf w :
  Forall (λ f, ∃ t, read_text f (fs w) = Ok t) matched →
  ∃ r, write_all matched prefix_name buf w = Ok r.
Proof.
  intros H. revert buf w H.
  induction matched as [|f rest IH]; intros buf w H; simpl.
  - by eexists.
  - apply Forall_cons in H as [[t Ht] H]. unfold mbind, result_bind.
    rewrite Ht. by apply IH.
Qed.

(** *** One prefix *)

Lemma read_text_written (output : path) (p content : string)
    (m : gmap path node) :
  read_text (out_path output p) (<[out_path output p := File content]> m) =
  Ok (universal_newlines content).
Proof.
  unfold read_text, out_path. rewrite node_at_snoc.
  by rewrite lookup_insert_eq.
Qed.

Lemma merge_prefix_inv all_csv_files output p mr w mr' w' :
  merge_prefix all_csv_files output p (mr, w) = Ok (mr', w') →
  (matched_files all_csv_files p = [] ∧ mr' = mr ∧ w' = w) ∨
  (matched_files all_csv_files p ≠ [] ∧
   is_dir (fs w) (out_path output p) = false ∧
   ∃ texts,
     Forall2 (λ f t, read_text f (<[out_path output p := File ""]> (fs w)) = Ok t)
       (matched_files all_csv_files p) texts ∧
     fs w' = <[out_path output p := File (sconcat texts)]> (fs w) ∧
     mr' = <[p := {| output_file := path_str (out_path output p);
                     files_merged := length (matched_files all_csv_files p);
                     lines := count_lines (universal_newlines (sconcat texts)) |}]> mr).
Proof.
  unfold merge_prefix. fold (out_path output p).
  destruct (matched_files all_csv_files p) as [|f0 rest] eqn:Hm.
  { intros H. left. by simplify_eq. }
  intros H. right. split; [done|]. cbn [fst snd] in H.
  unfold mbind, result_bind in H.
  unfold open_w in H.
  destruct (is_dir (fs w) (out_path output p)) eqn:Hd; [done|].
  destruct (node_at (fs w) (parent (out_path output p))) as [[|?]|]; [|done..].
  split; [done|].
  destruct (write_all _ _ _ _) as [[buf w2]|] eqn:Hw; [|done].
  apply write_all_inv in Hw as (Hfs & texts & Hall & ->).
  cbn [fst snd fs with_fs] in *.
  rewrite read_text_written in H. simplify_eq.
  exists texts. rewrite sapp_nil_l. split_and!; [done| |done].
  cbn [fs print with_fs]. rewrite Hfs. apply insert_insert_eq.
Qed.

Lemma merge_prefix_total all_csv_files output p mr w :
  is_dir (fs w) output = true →
  is_dir (fs w) (out_path output p) = false →
  Forall (λ f, ∃ content, fs w !! f = Some (File content) ∧
                f ≠ out_path output p ∧ f ≠ [])
    (matched_files all_csv_files p) →
  ∃ st, merge_prefix all_csv_files output p (mr, w) = Ok st.
Proof.
  intros Ho Hd Hf. unfold merge_prefix. fold (out_path output p).
  destruct (matched_files all_csv_files p) as [|f0 rest] eqn:Hm; [by eexists|].
  cbn [fst snd]. unfold mbind, result_bind, open_w. rewrite Hd.
  unfold out_path at 1. rewrite parent_snoc.
  unfold is_dir in Ho. destruct (node_at (fs w) output) as [[|?]|]; [|done..].
  destruct (write_all_total (f0 :: rest) p ""
              (with_fs (<[out_path output p := File ""]> (fs w)) w))
    as [[buf w2] Hw].
  { eapply Forall_impl; [done|]. intros f (content & Hc & Hne & Hn).
    exists (universal_newlines content). unfold read_text. cbn [fs with_fs].
    destruct f as [|c f]; [done|]. cbn [node_at].
    by rewrite lookup_insert_ne, Hc. }
  rewrite Hw. cbn [fst snd fs with_fs]. rewrite read_text_written.
  by eexists.
Qed.

(** *** The loop over the prefixes *)

(** A directory is never overwritten. *)
Lemma merge_prefix_dirs all_csv_files output p mr w mr' w' (q : path) :
  merge_prefix all_csv_files output p (mr, w) = Ok (mr', w') →
  fs w !! q = Some Dir → fs w' !! q = Some Dir.
Proof.
  intros H Hq.
  apply merge_prefix_inv in H as [(_ & _ & ->)|(_ & Hd & texts & _ & -> & _)];
    [done|].
  rewrite lookup_insert_ne; [done|]. intros <-.
  assert (is_dir (fs w) (out_path output p) = true) as Ht
    by (apply is_dir_true; by right).
  congruence.
Qed.

(** Only the merged file of the prefix is written. *)
Lemma merge_prefix_outside all_csv_files output p mr w mr' w' (q : path) :
  merge_prefix all_csv_files output p (mr, w) = Ok (mr', w') →
  q ≠ out_path output p → fs w' !! q = fs w !! q.
Proof.
  intros H Hq.
  apply merge_prefix_inv in H as [(_ & _ & ->)|(_ & Hd & texts & _ & -> & _)];
    [done|].
  by rewrite lookup_insert_ne.
Qed.

Lemma merge_prefix_other all_csv_files output p mr w mr' w' (q : string) :
  merge_prefix all_csv_files output p (mr, w) = Ok (mr', w') →
  q ≠ p → mr' !! q = mr !! q.
Proof.
  intros H Hq.
  apply merge_prefix_inv in H as [(_ & -> & _)|(_ & Hd & texts & _ & _ & ->)];
    [done|].
  by rewrite lookup_insert_ne.
Qed.

Lemma for_prefixes_dirs prefixes all_csv_files output st st' (q : path) :
  for_prefixes prefixes all_csv_files output st = Ok st' →
  fs st.2 !! q = Some Dir → fs st'.2 !! q = Some Dir.
Proof.
  revert st. induction prefixes as [|p rest IH]; intros st H Hq; simpl in H.
  - by simplify_eq.
  - unfold mbind, result_bind in H.
    destruct (merge_prefix _ _ _ st) as [[mr1 w1]|] eqn:H1; [|done].
    destruct st as [mr w]. apply (IH _ H).
    by apply (merge_prefix_dirs _ _ _ _ _ _ _ _ H1).
Qed.

Lemma for_prefixes_outside prefixes all_csv_files output st st' (q : path) :
  for_prefixes prefixes all_csv_files output st = Ok st' →
  (∀ p, p ∈ prefixes → q ≠ out_path output p) →
  fs st'.2 !! q = fs st.2 !! q.
Proof.
  revert st. induction prefixes as [|p rest IH]; intros st H Hq; simpl in H.
  - by simplify_eq.
  - unfold mbind, result_bind in H.
    destruct (merge_prefix _ _ _ st) as [[mr1 w1]|] eqn:H1; [|done].
    destruct st as [mr w]. rewrite (IH _ H).
    + apply (merge_prefix_outside _ _ _ _ _ _ _ _ H1), Hq. by left.
    + intros p' Hp'. apply Hq. by right.
Qed.

Lemma for_prefixes_frame prefixes all_csv_files output st st' (p : string) :
  for_prefixes prefixes all_csv_files output st = Ok st' →
  p ∉ prefixes →
  st'.1 !! p = st.1 !! p ∧
  fs st'.2 !! out_path output p = fs st.2 !! out_path output p.
Proof.
  intros H Hp. split.
  - revert st H. induction prefixes as [|p0 rest IH]; intros st H; simpl in H.
    + by simplify_eq.
    + unfold mbind, result_bind in H.
      destruct (merge_prefix _ _ _ st) as [[mr1 w1]|] eqn:H1; [|done].
      destruct st as [mr w]. apply not_elem_of_cons in Hp as [Hne Hp].
      rewrite (IH Hp _ H).
      by apply (merge_prefix_other _ _ _ _ _ _ _ _ H1).
  - apply (for_prefixes_outside _ _ _ _ _ _ H).
    intros p' Hp' E. apply out_path_inj in E. by subst.
Qed.

(** The entries of the summary. *)
Lemma for_prefixes_entries prefixes all_csv_files output st st' p :
  for_prefixes prefixes all_csv_files output st = Ok st' →
  (p ∈ prefixes → matched_files all_csv_files p ≠ [] →
   ∃ r content,
     st'.1 !! p = Some r ∧
     files_merged r = length (matched_files all_csv_files p) ∧
     output_file r = path_str (out_path output p) ∧
     fs st'.2 !! out_path output p = Some (File content) ∧
     lines r = count_lines (universal_newlines content)) ∧
  (¬ (p ∈ prefixes ∧ matched_files all_csv_files p ≠ []) →
   st'.1 !! p = st.1 !! p).
Proof.
  revert st. induction prefixes as [|p0 rest IH]; intros st H; simpl in H.
  { simplify_eq. split; [|done]. by intros ?%elem_of_nil. }
  unfold mbind, result_bind in H.
  destruct (merge_prefix _ _ _ st) as [[mr1 w1]|] eqn:H1; [|done].
  destruct st as [mr w]. destruct (IH _ H) as [IH1 IH2]. split.
  - intros Hp Hm. destruct (decide (p ∈ rest)) as [Hr|Hr]; [by apply IH1|].
    apply elem_of_cons in Hp as [->|?]; [|done].
    destruct (for_prefixes_frame _ _ _ _ _ _ H Hr) as [-> ->].
    cbn [fst snd].
    apply merge_prefix_inv in H1
      as [(? & _)|(_ & Hd & texts & _ & -> & ->)]; [done|].
    eexists _, _. rewrite !lookup_insert_eq. done.
  - intros Hp. rewrite IH2.
    + destruct (decide (p = p0)) as [->|Hne].
      * apply merge_prefix_inv in H1 as [(_ & -> & _)|(Hm & _)]; [done|].
        destruct Hp. split; [by left|done].
      * by apply (merge_prefix_other _ _ _ _ _ _ _ _ H1).
    + intros [??]. apply Hp. split; [by right|done].
Qed.

(** What has been read was a file before the loop began. *)
Lemma for_prefixes_read prefixes all_csv_files output st st' p (f : path) :
  for_prefixes prefixes all_csv_files output st = Ok st' →
  p ∈ prefixes → f ∈ matched_files all_csv_files p → f ≠ [] →
  fs st.2 !! f ≠ Some Dir.
Proof.
  revert st. induction prefixes as [|p0 rest IH]; intros st H Hp Hf Hne;
    simpl in H.
  { by apply elem_of_nil in Hp. }
  unfold mbind, result_bind in H.
  destruct (merge_prefix _ _ _ st) as [[mr1 w1]|] eqn:H1; [|done].
  destruct st as [mr w]. cbn [snd]. intros Hd.
  destruct (decide (p ∈ rest)) as [Hr|Hr].
  - apply (IH _ H Hr Hf Hne). by apply (merge_prefix_dirs _ _ _ _ _ _ _ _ H1).
  - apply elem_of_cons in Hp as [->|?]; [|done].
    apply merge_prefix_inv in H1
      as [(Hm & _)|(_ & Ho & texts & Hall & _)].
    { rewrite Hm in Hf. by apply elem_of_nil in Hf. }
    apply list_elem_of_lookup in Hf as [i Hi].
    destruct (Forall2_lookup_l _ _ _ _ _ Hall Hi) as (t & _ & Ht).
    unfold read_text in Ht. destruct f as [|c f]; [done|]. cbn [node_at] in Ht.
    rewrite lookup_insert_ne, Hd in Ht; [done|]. intros E.
    rewrite <-E in Hd.
    assert (is_dir (fs w) (out_path output p0) = true) as Ht'
      by (apply is_dir_true; by right).
    congruence.
Qed.

Lemma read_texts_contents (m : gmap path node) (out : path) l texts :
  Forall (λ f, f ≠ out ∧ f ≠ []) l →
  Forall2 (λ f t, read_text f (<[out := File ""]> m) = Ok t) l texts →
  ∃ contents, Forall2 (λ f (c : string), m !! f = Some (File c)) l contents ∧
    texts = universal_newlines <$> contents.
Proof.
  intros Hl H. induction H as [|f t l texts Hr H IH].
  { exists []. split; [constructor|done]. }
  apply Forall_cons in Hl as [[Hne Hn] Hl].
  destruct (IH Hl) as (contents & Hc & ->).
  unfold read_text in Hr. destruct f as [|c f]; [done|]. cbn [node_at] in Hr.
  rewrite lookup_insert_ne in Hr by done.
  destruct (m !! (c :: f)) as [[|content]|] eqn:E; [done| |done].
  simplify_eq. exists (content :: contents). split; [by constructor|done].
Qed.

(** What has been written, when no source is a merged file. *)
Lemma for_prefixes_content prefixes all_csv_files output st st' p :
  for_prefixes prefixes all_csv_files output st = Ok st' →
  (∀ f p', f ∈ all_csv_files → f ≠ out_path output p' ∧ f ≠ []) →
  p ∈ prefixes → matched_files all_csv_files p ≠ [] →
  ∃ contents,
    Forall2 (λ f (c : string), fs st.2 !! f = Some (File c))
      (matched_files all_csv_files p) contents ∧
    fs st'.2 !! out_path output p =
    Some (File (sconcat (universal_newlines <$> contents))).
Proof.
  intros H Hsrc. revert st H.
  induction prefixes as [|p0 rest IH]; intros st H Hp Hm; simpl in H.
  { by apply elem_of_nil in Hp. }
  unfold mbind, result_bind in H.
  destruct (merge_prefix _ _ _ st) as [[mr1 w1]|] eqn:H1; [|done].
  destruct st as [mr w]. cbn [snd].
  assert (Forall (λ f, f ∈ all_csv_files) (matched_files all_csv_files p))
    as Hin.
  { apply Forall_forall. intros f Hf.
    unfold matched_files in Hf. by apply list_elem_of_filter in Hf as [_ ?]. }
  destruct (decide (p ∈ rest)) as [Hr|Hr].
  - destruct (IH _ H Hr Hm) as (contents & Hc & Ho).
    exists contents. split; [|done]. cbn [snd] in Hc.
    apply Forall2_same_length_lookup. split; [by eapply Forall2_length|].
    intros i f c Hf Hi.
    pose proof (Forall2_lookup_lr _ _ _ _ _ _ Hc Hf Hi) as Hfc. cbn in Hfc.
    rewrite <-Hfc. symmetry.
    apply (merge_prefix_outside _ _ _ _ _ _ _ _ H1), Hsrc.
    apply (Forall_lookup_1 _ _ _ _ Hin Hf).
  - apply elem_of_cons in Hp as [->|?]; [|done].
    destruct (for_prefixes_frame _ _ _ _ _ _ H Hr) as [_ ->].
    cbn [fst snd].
    apply merge_prefix_inv in H1
      as [(? & _)|(_ & Hd & texts & Hall & -> & _)]; [done|].
    destruct (read_texts_contents (fs w) (out_path output p0)
                (matched_files all_csv_files p0) texts)
      as (contents & Hc & ->); [|done|].
    { eapply Forall_impl; [apply Hin|]. intros f Hf. by apply Hsrc. }
    exists contents. split; [done|]. cbn [snd]. by rewrite lookup_insert_eq.
Qed.

Lemma is_dir_out_path (m : gmap path node) (output : path) (p : string) :
  is_dir m (out_path output p) =
  match m !! out_path output p with
  | Some Dir => true
  | _ => false
  end.
Proof. unfold is_dir, out_path. by rewrite node_at_snoc. Qed.

(** The loop goes through when the sources are files and the merged files
    can be written. *)
Lemma for_prefixes_total prefixes all_csv_files output st :
  is_dir (fs st.2) output = true →
  (∀ p, p ∈ prefixes → is_dir (fs st.2) (out_path output p) = false) →
  (∀ f, f ∈ all_csv_files →
     (∃ content, fs st.2 !! f = Some (File content)) ∧
     (∀ p', f ≠ out_path output p') ∧ f ≠ []) →
  ∃ st', for_prefixes prefixes all_csv_files output st = Ok st'.
Proof.
  revert st. induction prefixes as [|p rest IH]; intros [mr w] Ho Hd Hf; simpl.
  { by eexists. }
  cbn [snd] in *. unfold mbind, result_bind.
  destruct (merge_prefix_total all_csv_files output p mr w) as [[mr1 w1] H1];
    [done|apply Hd; by left| |].
  { apply Forall_forall. intros f Hm.
    unfold matched_files in Hm. apply list_elem_of_filter in Hm as [_ Hm].
    destruct (Hf f Hm) as ([content Hc] & Hne & Hn). by exists content. }
  rewrite H1. apply IH; cbn [snd].
  - apply is_dir_true in Ho as [->|Ho]; [done|].
    apply is_dir_true. right.
    by apply (merge_prefix_dirs _ _ _ _ _ _ _ _ H1).
  - intros p' Hp'.
    apply merge_prefix_inv in H1 as [(_ & _ & ->)|(_ & _ & texts & _ & -> & _)].
    + apply Hd. by right.
    + rewrite is_dir_out_path.
      destruct (decide (out_path output p = out_path output p')) as [->|Hne].
      * by rewrite lookup_insert_eq.
      * rewrite lookup_insert_ne by done.
        specialize (Hd p' (ltac:(by right))).
        by rewrite is_dir_out_path in Hd.
  - intros f Hm. destruct (Hf f Hm) as ([content Hc] & Hne & Hn).
    split_and!; [|done..]. exists content.
    rewrite (merge_prefix_outside _ _ _ _ _ _ _ _ H1); [done|apply Hne].
Qed.

(** *** The whole function *)

Lemma merge_csv_files_inv source output prefixes w mr w' :
  merge_csv_files source output prefixes w = Ok (mr, w') →
  ∃ m1, mkdir_parents output (fs w) = Ok m1 ∧
    ((is_dir m1 source = false ∧ mr = ∅ ∧
      w' = print (source_warning source) (with_fs m1 w)) ∨
     (is_dir m1 source = true ∧ prefixes = [] ∧ mr = ∅ ∧
      w' = print prefixes_warning (with_fs m1 w)) ∨
     (is_dir m1 source = true ∧ prefixes ≠ [] ∧
      for_prefixes prefixes (sorted (glob_csv m1 source)) output
        (∅, with_fs m1 w) = Ok (mr, w'))).
Proof.
  unfold merge_csv_files, mbind, result_bind. cbv zeta.
  destruct (mkdir_parents output (fs w)) as [m1|] eqn:Hm; [|done].
  intros H. exists m1. split; [done|]. cbn [fs with_fs] in H.
  destruct (is_dir m1 source) eqn:Hd; cbn [negb] in H.
  - right. destruct prefixes as [|p rest].
    + left. by simplify_eq.
    + right. done.
  - left. by simplify_eq.
Qed.

Lemma is_dir_kept p m m' q :
  mkdir_parents p m = Ok m' → is_dir m q = true → is_dir m' q = true.
Proof.
  intros H Hq. apply is_dir_true in Hq as [->|Hq]; apply is_dir_true;
    [by left|right].
  by apply (mkdir_parents_kept _ _ _ _ _ H).
Qed.

Lemma is_dir_other p m m' q :
  mkdir_parents p m = Ok m' → ¬ q `prefix_of` p → is_dir m' q = is_dir m q.
Proof.
  intros H Hq. unfold is_dir, node_at. destruct q as [|c q]; [done|].
  by rewrite (mkdir_parents_other _ _ _ _ H Hq).
Qed.

(** The claim C5 fails as it stands: the output directory is created
    first, and that raises when its path is taken by a file. *)
Lemma merge_raises_before_the_checks :
  node_at {[ ["out"] := File "" ]} ["missing"] = None ∧
  merge_csv_files ["missing"] ["out"] ["a"]
    {| fs := {[ ["out"] := File "" ]}; stdout := [] |} =
  Raise FileExistsError.
Proof. split; by vm_compute. Qed.

(** C5 as amended: when the output directory can be created (no component
    of its path is a file), a source that is no directory and lies outside
    the output path gives the empty summary and the warning about the
    source, and an empty prefix list with an existing source gives the
    empty summary and the warning about the prefixes; nothing is raised. *)
Theorem merge_degenerate_cases source output prefixes w :
  (∀ q content, q `prefix_of` output → fs w !! q ≠ Some (File content)) →
  (is_dir (fs w) source = false → ¬ source `prefix_of` output →
   ∃ w', merge_csv_files source output prefixes w = Ok (∅, w') ∧
     stdout w' = stdout w ++ [source_warning source]) ∧
  (is_dir (fs w) source = true → prefixes = [] →
   ∃ w', merge_csv_files source output prefixes w = Ok (∅, w') ∧
     stdout w' = stdout w ++ [prefixes_warning]).
Proof.
  intros Hout. destruct (mkdir_parents_ok output (fs w) Hout) as [m1 Hm].
  unfold merge_csv_files, mbind, result_bind. cbv zeta. rewrite Hm.
  cbn [fs with_fs]. split.
  - intros Hs Hp. rewrite (is_dir_other _ _ _ _ Hm Hp), Hs. cbn [negb].
    by eexists.
  - intros Hs ->. rewrite (is_dir_kept _ _ _ _ Hm Hs). cbn [negb].
    by eexists.
Qed.

Lemma merge_degenerate_cases_witness :
  (∃ w', merge_csv_files ["missing"] ["out"] ["a"]
           {| fs := {[ ["dl"] := Dir ]}; stdout := [] |} = Ok (∅, w') ∧
     stdout w' = [] ++ [source_warning ["missing"]]) ∧
  (∃ w', merge_csv_files ["dl"] ["out"] []
           {| fs := {[ ["dl"] := Dir ]}; stdout := [] |} = Ok (∅, w') ∧
     stdout w' = [] ++ [prefixes_warning]).
Proof.
  assert (∀ (q : path) (content : string), q `prefix_of` ["out"] →
            ({[ ["dl"] := Dir ]} : gmap path node) !! q ≠ Some (File content))
    as Hout.
  { intros q content _ Hq. by apply lookup_singleton_Some in Hq as [_ ?]. }
  split.
  - apply (merge_degenerate_cases ["missing"] ["out"] ["a"]
             {| fs := {[ ["dl"] := Dir ]}; stdout := [] |} Hout);
      [by vm_compute|].
    intros [k Hk]. by destruct k.
  - apply (merge_degenerate_cases ["dl"] ["out"] []
             {| fs := {[ ["dl"] := Dir ]}; stdout := [] |} Hout);
      [by vm_compute|done].
Defined.

(** C10: the output directory is created before anything is checked.
    When its creation raises, the call raises the same exception whatever
    the source and the prefixes are; when the call then returns early
    because the source is no directory or the prefix list is empty, the
    world it leaves holds the output directory and all its ancestors, and
    the summary is empty. *)
Theorem merge_creates_output_dir_first source output prefixes w :
  (∀ e, mkdir_parents output (fs w) = Raise e →
     merge_csv_files source output prefixes w = Raise e) ∧
  (∀ m1, mkdir_parents output (fs w) = Ok m1 →
     is_dir m1 source = false ∨ prefixes = [] →
     ∃ w', merge_csv_files source output prefixes w = Ok (∅, w') ∧
       fs w' = m1 ∧
       ∀ q, q `prefix_of` output → is_dir (fs w') q = true).
Proof.
  unfold merge_csv_files, mbind, result_bind. cbv zeta. split.
  - by intros e ->.
  - intros m1 Hm Hdeg. rewrite Hm. cbn [fs with_fs].
    assert (∀ q, q `prefix_of` output → is_dir m1 q = true) as Hq.
    { intros q. by apply (mkdir_parents_is_dir output (fs w)). }
    destruct (is_dir m1 source) eqn:Hd; cbn [negb].
    + destruct Hdeg as [?| ->]; [done|]. by eexists.
    + by eexists.
Qed.

Lemma merge_creates_output_dir_first_witness :
  merge_csv_files ["missing"] ["out"] ["a"]
    {| fs := {[ ["out"] := File "" ]}; stdout := [] |} = Raise FileExistsError ∧
  ∃ w', merge_csv_files ["missing"] ["data"; "out"] ["a"]
          {| fs := ∅; stdout := [] |} = Ok (∅, w') ∧
    fs w' = <[ ["data"; "out"] := Dir ]> (<[ ["data"] := Dir ]> ∅) ∧
    ∀ q, q `prefix_of` ["data"; "out"] → is_dir (fs w') q = true.
Proof.
  split.
  - apply (merge_creates_output_dir_first ["missing"] ["out"] ["a"]
             {| fs := {[ ["out"] := File "" ]}; stdout := [] |}).
    reflexivity.
  - apply (merge_creates_output_dir_first ["missing"] ["data"; "out"] ["a"]
             {| fs := ∅; stdout := [] |}); [reflexivity|].
    left. reflexivity.
Defined.

(** *** The listing of the source directory *)

Lemma Sorted_filter (P : path → Prop) `{∀ x, Decision (P x)} l :
  Sorted path_le l → Sorted path_le (filter P l).
Proof.
  intros Hl. apply StronglySorted_Sorted.
  apply (Sorted_StronglySorted path_le) in Hl.
  induction Hl as [|x l Hl IH Hx]; [constructor|].
  rewrite filter_cons. destruct (decide (P x)); [|done].
  constructor; [done|]. apply Forall_forall. intros y Hy.
  apply list_elem_of_filter in Hy as [_ Hy].
  by apply (proj1 (Forall_forall _ _) Hx).
Qed.

Lemma elem_of_matched_files all_csv_files p f :
  f ∈ matched_files all_csv_files p ↔
  normalize_prefix (stem f) = p ∧ f ∈ all_csv_files.
Proof. unfold matched_files. by rewrite list_elem_of_filter. Qed.

Lemma elem_of_listing (m : gmap path node) source q :
  q ∈ sorted (glob_csv m source) ↔
  is_Some (m !! q) ∧ ∃ x, q = source ++ [x] ∧ endswith ".csv" x = true.
Proof. by rewrite elem_of_sorted, elem_of_glob_csv, csv_child_iff. Qed.

Lemma listing_not_output (m : gmap path node) source output f p :
  output ≠ source → f ∈ sorted (glob_csv m source) →
  f ≠ out_path output p ∧ f ≠ [].
Proof.
  intros Hne Hf. apply elem_of_listing in Hf as (_ & x & -> & _). split.
  - unfold out_path. intros E. apply app_inj_tail in E as [? _]. by subst.
  - by destruct source.
Qed.

(** When the loop returns, every entry selected for a requested prefix
    was a file of the initial file system. *)
Lemma matched_was_file source output prefixes w m1 st' p f :
  mkdir_parents output (fs w) = Ok m1 →
  for_prefixes prefixes (sorted (glob_csv m1 source)) output
    (∅, with_fs m1 w) = Ok st' →
  p ∈ prefixes →
  f ∈ matched_files (sorted (glob_csv m1 source)) p →
  ∃ content, fs w !! f = Some (File content).
Proof.
  intros Hm H Hp Hf.
  pose proof Hf as Hf'. apply elem_of_matched_files in Hf' as [_ Hl].
  apply elem_of_listing in Hl as ([n Hn] & x & Hx & _).
  assert (f ≠ []) as Hne by (subst; by destruct source).
  pose proof (for_prefixes_read _ _ _ _ _ _ _ H Hp Hf Hne) as Hd.
  cbn [snd fs with_fs] in Hd. destruct n as [|content]; [done|].
  exists content. by apply (mkdir_parents_file _ _ _ _ _ Hm).
Qed.

(** Hence the selection is the one made on the initial file system. *)
Lemma matched_files_initial source output prefixes w m1 st' p :
  mkdir_parents output (fs w) = Ok m1 →
  for_prefixes prefixes (sorted (glob_csv m1 source)) output
    (∅, with_fs m1 w) = Ok st' →
  p ∈ prefixes →
  matched_files (sorted (glob_csv m1 source)) p =
  matched_files (sorted (glob_csv (fs w) source)) p.
Proof.
  intros Hm H Hp. unfold matched_files at 1 2.
  apply (Sorted_unique path_le).
  - apply Sorted_filter, sorted_Sorted.
  - apply Sorted_filter, sorted_Sorted.
  - apply NoDup_Permutation.
    + apply NoDup_filter. rewrite sorted_Permutation. apply NoDup_glob_csv.
    + apply NoDup_filter. rewrite sorted_Permutation. apply NoDup_glob_csv.
    + intros f. fold (matched_files (sorted (glob_csv m1 source)) p).
      fold (matched_files (sorted (glob_csv (fs w) source)) p).
      rewrite !elem_of_matched_files, !elem_of_listing. split.
      * intros (Hn & Hs & Hx). split_and!; [done| |done].
        destruct (matched_was_file _ _ _ _ _ _ p f Hm H Hp) as [c Hc];
          [|by eexists].
        apply elem_of_matched_files. split; [done|].
        by apply elem_of_listing.
      * intros (Hn & [n Hs] & Hx). split_and!; [done| |done].
        exists n. by apply (mkdir_parents_kept _ _ _ _ _ Hm).
Qed.



(** *** Text mode *)

Lemma universal_newlines_no_cr s : no_cr (universal_newlines s) = true.
Proof.
  unfold no_cr. induction s as [|c s IH]; [done|]. simpl.
  destruct (Ascii.eqb c "013") eqn:Hc.
  - destruct s as [|c' s]; [done|].
    destruct (Ascii.eqb_spec c' "010") as [->|Hne]; [done|].
    assert (∀ (X Y : string), match c' with
                 | "010"%char => X
                 | _ => Y
                 end = Y) as E.
    { intros X Y. clear -Hne.
      destruct c' as [[] [] [] [] [] [] [] []]; try done. }
    rewrite E. simpl. simpl in IH. by rewrite IH.
  - simpl. by rewrite Hc, IH.
Qed.

Lemma universal_newlines_id s : no_cr s = true → universal_newlines s = s.
Proof.
  unfold no_cr. induction s as [|c s IH]; [done|]. simpl.
  intros H. apply andb_prop in H as [Hc H].
  apply negb_true_iff in Hc. rewrite Hc. by rewrite IH.
Qed.

Lemma no_cr_app a b : no_cr (a +:+ b) = no_cr a && no_cr b.
Proof. apply sforall_app. Qed.

Lemma no_cr_sconcat l :
  Forall (λ s, no_cr s = true) l → no_cr (sconcat l) = true.
Proof.
  induction 1 as [|s l Hs Hl IH]; [done|].
  simpl. by rewrite no_cr_app, Hs, IH.
Qed.

(** The lines of a text that follows a terminated text are counted apart. *)
Lemma count_lines_app a b :
  a = "" ∨ slast a = Some "010"%char →
  count_lines (a +:+ b) = (count_lines a + count_lines b)%nat.
Proof.
  induction a as [|c a IH]; intros Ha; [done|].
  destruct Ha as [?|Ha]; [done|]. rewrite sapp_cons. simpl.
  destruct (Ascii.eqb_spec c "010") as [->|Hc].
  - rewrite IH; [done|]. destruct a as [|c' a]; [by left|by right].
  - destruct a as [|c' a]; [simpl in Ha; congruence|].
    rewrite sapp_cons, <-sapp_cons. rewrite IH by (by right). done.
Qed.

(** *** The summary *)


Lemma merge_result_entry source output prefixes w mr w' p r :
  merge_csv_files source output prefixes w = Ok (mr, w') →
  mr !! p = Some r →
  ∃ m1, mkdir_parents output (fs w) = Ok m1 ∧ p ∈ prefixes ∧
    matched_files (sorted (glob_csv m1 source)) p ≠ [] ∧
    for_prefixes prefixes (sorted (glob_csv m1 source)) output
      (∅, with_fs m1 w) = Ok (mr, w').
Proof.
  intros H Hr.
  apply merge_csv_files_inv in H
    as (m1 & Hm & [(Hd & -> & _)|[(Hd & -> & -> & _)|(Hd & Hne & H)]]);
    [by rewrite lookup_empty in Hr..|].
  exists m1. split; [done|].
  destruct (for_prefixes_entries _ _ _ _ _ p H) as [_ H2].
  cbn [fst snd] in *.
  destruct (decide (p ∈ prefixes ∧
                    matched_files (sorted (glob_csv m1 source)) p ≠ []))
    as [[Hp Hmf]|Hn]; [done|].
  by rewrite (H2 Hn), lookup_empty in Hr.
Qed.


(** *** The merged files *)

(** The claim C8 fails as it stands: the files are read and written as
    text, so that the merged file of a single source with [\r\n] line ends
    is not a copy of it. *)
Lemma merge_translates_line_ends :
  fs crlf_world !! ["src"; "a.csv"] =
    Some (File ("x" +:+ crlf +:+ "y" +:+ crlf)) ∧
  node_after (merge_csv_files ["src"] ["out"] ["a"] crlf_world)
    ["out"; "a.csv"] =
    Some (File ("x" +:+ newline +:+ "y" +:+ newline)) ∧
  "x" +:+ newline +:+ "y" +:+ newline ≠ "x" +:+ crlf +:+ "y" +:+ crlf.
Proof. split_and!; by vm_compute. Qed.

(** C8 as amended: the listing is that of the entries directly under the
    source directory whose name ends in [.csv], in the order of paths; and
    when the output directory is not the source directory, the merged file
    of a prefix of the summary holds, whatever was there before, the texts
    of the selected files in the order of the listing, each text being the
    content of the file with [\r\n] and [\r] turned into [\n]: the very
    contents when they hold no carriage return. *)
Theorem merge_output_content source output prefixes w mr w' :
  merge_csv_files source output prefixes w = Ok (mr, w') →
  output ≠ source →
  Sorted path_le (sorted (glob_csv (fs w) source)) ∧
  (∀ q, q ∈ sorted (glob_csv (fs w) source) ↔
        is_Some (fs w !! q) ∧
        ∃ x, q = source ++ [x] ∧ endswith ".csv" x = true) ∧
  ∀ p, is_Some (mr !! p) →
    ∃ contents,
      Forall2 (λ f (c : string), fs w !! f = Some (File c))
        (matched_files (sorted (glob_csv (fs w) source)) p) contents ∧
      fs w' !! (output ++ [p +:+ ".csv"]) =
        Some (File (sconcat (universal_newlines <$> contents))) ∧
      (Forall (λ c, no_cr c = true) contents →
       fs w' !! (output ++ [p +:+ ".csv"]) = Some (File (sconcat contents))).
Proof.
  intros H Hne. split_and!; [apply sorted_Sorted|apply elem_of_listing|].
  intros p [r Hr].
  destruct (merge_result_entry _ _ _ _ _ _ _ _ H Hr)
    as (m1 & Hm & Hp & Hmf & Hloop).
  destruct (for_prefixes_content _ _ _ _ _ p Hloop) as (contents & Hc & Ho);
    [|done..|].
  { intros f p' Hf. by apply (listing_not_output m1 source). }
  cbn [fst snd fs with_fs] in *.
  rewrite <-(matched_files_initial _ _ _ _ _ _ _ Hm Hloop Hp).
  change (output ++ [p +:+ ".csv"]) with (out_path output p).
  exists contents. split_and!; [|done|].
  - eapply Forall2_impl; [done|]. intros f c Hf. cbn in Hf.
    by apply (mkdir_parents_file _ _ _ _ _ Hm).
  - intros Hcr. rewrite Ho. do 3 f_equal.
    clear -Hcr. induction Hcr as [|c l Hc Hl IH]; [done|].
    rewrite fmap_cons. by rewrite universal_newlines_id, IH.
Qed.

(** The call returns a summary when the output directory can be created
    outside the source directory, the entries of the listing are files and
    no merged file has to replace a directory. *)
Lemma merge_csv_files_total source output prefixes w :
  (∀ q content, q `prefix_of` output → fs w !! q ≠ Some (File content)) →
  ¬ source `prefix_of` output →
  (∀ x n, fs w !! (source ++ [x]) = Some n → endswith ".csv" x = true →
     ∃ content, n = File content) →
  (∀ p, p ∈ prefixes → fs w !! out_path output p ≠ Some Dir) →
  ∃ mr w', merge_csv_files source output prefixes w = Ok (mr, w').
Proof.
  intros Hout Hsrc Hfiles Hdirs.
  destruct (mkdir_parents_ok output (fs w) Hout) as [m1 Hm].
  unfold merge_csv_files, mbind, result_bind. cbv zeta. rewrite Hm.
  cbn [fs with_fs]. destruct (is_dir m1 source) eqn:Hd; cbn [negb];
    [|by eexists _, _].
  destruct prefixes as [|p0 rest]; [by eexists _, _|].
  destruct (for_prefixes_total (p0 :: rest) (sorted (glob_csv m1 source))
              output (∅, with_fs m1 w)) as [[mr w'] H]; [| | |by eexists _, _].
  - cbn [snd fs with_fs]. by apply (mkdir_parents_is_dir output (fs w)).
  - intros p Hp. cbn [snd fs with_fs]. rewrite is_dir_out_path.
    rewrite (mkdir_parents_other _ _ _ _ Hm).
    + specialize (Hdirs p Hp).
      by destruct (fs w !! out_path output p) as [[|?]|].
    + unfold out_path. intros Hp'. apply prefix_length in Hp'.
      rewrite length_app in Hp'. simpl in Hp'. lia.
  - intros f Hf. cbn [snd fs with_fs].
    apply elem_of_listing in Hf as ([n Hn] & x & -> & Hx).
    assert (¬ source ++ [x] `prefix_of` output) as Hnp.
    { intros Hp. apply Hsrc. by apply (prefix_app_l _ _ [x]). }
    rewrite (mkdir_parents_other _ _ _ _ Hm Hnp) in Hn.
    destruct (Hfiles x n Hn Hx) as [content ->].
    split_and!.
    + exists content. by rewrite (mkdir_parents_other _ _ _ _ Hm Hnp).
    + intros p' E. unfold out_path in E. apply app_inj_tail in E as [-> _].
      by apply Hsrc.
    + by destruct source.
Qed.

Lemma sample_run_ok : sample_run = Ok (sample_summary, sample_final).
Proof. by vm_compute. Qed.



Lemma merge_output_content_witness :
  Sorted path_le (sorted (glob_csv (fs sample_world) ["src"])) ∧
  (∀ q, q ∈ sorted (glob_csv (fs sample_world) ["src"]) ↔
        is_Some (fs sample_world !! q) ∧
        ∃ x, q = ["src"] ++ [x] ∧ endswith ".csv" x = true) ∧
  ∀ p, is_Some (sample_summary !! p) →
    ∃ contents,
      Forall2 (λ f (c : string), fs sample_world !! f = Some (File c))
        (matched_files (sorted (glob_csv (fs sample_world) ["src"])) p)
        contents ∧
      fs sample_final !! (["out"] ++ [p +:+ ".csv"]) =
        Some (File (sconcat (universal_newlines <$> contents))) ∧
      (Forall (λ c, no_cr c = true) contents →
       fs sample_final !! (["out"] ++ [p +:+ ".csv"]) =
         Some (File (sconcat contents))).
Proof.
  apply (merge_output_content ["src"] ["out"] ["a"; "c"] sample_world
           sample_summary sample_final); by vm_compute.
Defined.

End MergeFacts.

(** ** URL catalogue generation: errors, composition, placeholders *)

Module UrlMore.
Import PyStr Url Notions MoreNotions StrFacts UrlFacts.

(** *** When the catalogue is not returned *)





(** *** Year ranges that follow one another *)

Lemma for_months_acc months ystr url_base key day acc :
  for_months months ystr url_base key day acc =
  (t ← for_months months ystr url_base key day [] ; Ok (acc ++ t)).
Proof.
  revert acc. induction months as [|month rest IH]; intros acc; simpl.
  { unbind. by rewrite app_nil_r. }
  unbind. destruct (int month) as [mv|]; [|done].
  destruct (int day) as [dv|]; [|done].
  rewrite IH. rewrite (IH (for_patterns _ _ _ _ _ [])). unbind.
  destruct (for_months rest ystr url_base key day []) as [t|]; [|done].
  rewrite !for_patterns_eq. by rewrite app_nil_l, app_assoc.
Qed.

Lemma for_years_acc years months url_base key day acc :
  for_years years months url_base key day acc =
  (t ← for_years years months url_base key day [] ; Ok (acc ++ t)).
Proof.
  revert acc. induction years as [|y rest IH]; intros acc; simpl.
  { unbind. by rewrite app_nil_r. }
  rewrite for_months_acc.
  rewrite (for_months_acc months (format0 4 y) url_base key day []).
  unbind. destruct (for_months months _ url_base key day []) as [t|]; [|done].
  rewrite app_nil_l. rewrite IH. rewrite (IH t). unbind.
  destruct (for_years rest months url_base key day []) as [t'|]; [|done].
  by rewrite app_assoc.
Qed.

Lemma for_years_app_years years1 years2 months url_base key day acc :
  for_years (years1 ++ years2) months url_base key day acc =
  (l ← for_years years1 months url_base key day acc ;
   for_years years2 months url_base key day l).
Proof.
  revert acc. induction years1 as [|y rest IH]; intros acc; simpl; [done|].
  unbind. destruct (for_months months _ url_base key day acc); [|done].
  apply IH.
Qed.

(** X2: the catalogue of a range of years is the catalogue of its first
    years followed by the catalogue of the years after them. *)
Theorem url_generate_split a b c months url_base key day :
  a - 1 ≤ b ≤ c →
  url_generate a c months url_base key day =
  (l1 ← url_generate a b months url_base key day ;
   l2 ← url_generate (b + 1) c months url_base key day ;
   Ok (l1 ++ l2)).
Proof.
  intros H. unfold url_generate, range.
  replace (c + 1 - a) with ((b + 1 - a) + (c + 1 - (b + 1))) by lia.
  rewrite seqZ_app by lia. replace (a + (b + 1 - a)) with (b + 1) by lia.
  rewrite for_years_app_years. unbind.
  destruct (for_years (seqZ a (b + 1 - a)) months url_base key day [])
    as [l1|]; [|done].
  by rewrite for_years_acc.
Qed.

Lemma url_generate_split_witness :
  url_generate 2019 2021 ["01"; "07"] ["{YYYY}/{MM}"] "cig" "01" =
  (l1 ← url_generate 2019 2019 ["01"; "07"] ["{YYYY}/{MM}"] "cig" "01" ;
   l2 ← url_generate (2019 + 1) 2021 ["01"; "07"] ["{YYYY}/{MM}"] "cig" "01" ;
   Ok (l1 ++ l2)).
Proof.
  apply (url_generate_split 2019 2019 2021 ["01"; "07"] ["{YYYY}/{MM}"]
           "cig" "01").
  lia.
Defined.

(** *** Placeholders in the catalogue *)

Lemma blocks_numeral t new :
  t ≠ "" → sforall (λ a, negb (is_digit a)) t = true →
  slast t ≠ Some "-"%char → numeral new = true → blocks t new.
Proof.
  intros H1 H2 H3 Hn x y. by apply contains_around_numeral.
Qed.

Lemma sexists_split f s :
  sexists f s = true → ∃ a c b, s = a +:+ String c b ∧ f c = true.
Proof.
  induction s as [|c s IH]; [done|]. simpl. intros H.
  apply orb_prop in H as [H|H].
  - by exists "", c, s.
  - destruct (IH H) as (a & c' & b & -> & Hc). by exists (String c a), c', b.
Qed.

Lemma absent_char c s :
  contains (String c "") s = false →
  sforall (λ a, negb (Ascii.eqb a c)) s = true.
Proof.
  induction s as [|a s IH]; [done|]. rewrite contains_cons. simpl.
  intros H. apply orb_false_elim in H as [H1 H2].
  rewrite andb_true_r in H1. rewrite (Ascii.eqb_sym a c), H1. simpl.
  by apply IH.
Qed.

(** No occurrence begins in a text without the first character. *)
Lemma contains_after_alien z t k y :
  sforall (λ c, negb (Ascii.eqb c z)) k = true →
  contains (String z t) (k +:+ y) = true → contains (String z t) y = true.
Proof.
  induction k as [|c k IH]; [done|]. intros Hk H. simpl in Hk.
  apply andb_prop in Hk as [Hc Hk]. rewrite sapp_cons, contains_cons in H.
  apply orb_prop in H as [H|H]; [|by apply IH].
  simpl in H. apply andb_prop in H as [H _].
  rewrite Ascii.eqb_sym in H. by rewrite H in Hc.
Qed.

(** No occurrence ends in a text without the last character. *)
Lemma contains_before_alien z t x k :
  slast t = Some z →
  sforall (λ c, negb (Ascii.eqb c z)) k = true →
  contains t (x +:+ k) = true → contains t x = true.
Proof.
  intros Ht. revert x. induction k as [|c k IH]; intros x Hk H.
  { by rewrite sapp_nil_r in H. }
  simpl in Hk. apply andb_prop in Hk as [Hc Hk].
  rewrite <-sapp_snoc in H. apply IH in H; [|done].
  apply (contains_snoc t x c); [|done].
  rewrite Ht. intros E. simplify_eq. by rewrite Ascii.eqb_refl in Hc.
Qed.

Lemma sforall_impl (f g : ascii → bool) s :
  (∀ c, f c = true → g c = true) → sforall f s = true → sforall g s = true.
Proof.
  intros Hfg. induction s as [|c s IH]; [done|]. simpl. intros H.
  apply andb_prop in H as [Hc H]. by rewrite (Hfg c Hc), IH.
Qed.

(** A plain key keeps every placeholder from appearing around it. *)
Lemma blocks_plain_key t key :
  t ∈ placeholders → plain_key key = true → blocks t key.
Proof.
  intros Ht Hk x y H. unfold plain_key in Hk.
  apply andb_prop in Hk as [Hb Hc].
  apply sexists_split in Hc as (k1 & c & k2 & -> & Hc).
  rewrite sforall_app in Hb. apply andb_prop in Hb as [Hb1 Hb2].
  simpl in Hb2. apply andb_prop in Hb2 as [_ Hb2].
  apply negb_true_iff, absent_char in Hc.
  assert (sforall (λ a, negb (Ascii.eqb a c)) t = true ∧
          (∃ t', t = String "{" t') ∧ slast t = Some "}"%char)
    as (Hct & [t' Et] & Hl).
  { unfold placeholders in Ht.
    repeat (apply elem_of_cons in Ht as [->|Ht]);
      [..|by apply elem_of_nil in Ht];
      (split_and!; [|by eexists|done]); simpl in Hc |- *;
      repeat (apply andb_prop in Hc as [? Hc]);
      repeat (apply andb_true_intro; split); done. }
  rewrite sapp_assoc, sapp_cons, <-sapp_assoc in H.
  apply (contains_through t _ _ c Hct) in H as [H|H].
  - left. apply (contains_before_alien "}" t x k1 Hl); [|done].
    eapply sforall_impl; [|apply Hb1]. intros a Ha.
    by apply andb_prop in Ha as [_ ?].
  - right. rewrite Et in *. apply (contains_after_alien "{" t' k2 y); [|done].
    eapply sforall_impl; [|apply Hb2]. intros a Ha.
    by apply andb_prop in Ha as [? _].
Qed.

Lemma replace_go_sdrop old new k s :
  replace_go old new k s = replace_go old new 0 (sdrop k s).
Proof.
  revert k. induction s as [|c s IH]; intros [|k]; try done.
  simpl. apply IH.
Qed.

(** The first occurrence is replaced and the scan goes on behind it. *)
Lemma replace_first a t new s :
  contains (String a t) s = true →
  ∃ u v, s = u +:+ String a t +:+ v ∧
    contains (String a t) u = false ∧
    replace (String a t) new s = u +:+ new +:+ replace (String a t) new v.
Proof.
  unfold replace. induction s as [|c s IH]; [done|].
  intros H. destruct (startswith (String a t) (String c s)) eqn:Hs.
  - exists "", (sdrop (String.length (String a t)) (String c s)).
    split_and!; [by apply startswith_inv|done|].
    cbn [replace_go]. rewrite Hs. rewrite sapp_nil_l. f_equal.
    rewrite replace_go_sdrop. simpl. by rewrite Nat.sub_0_r.
  - rewrite contains_cons, Hs in H. simpl in H.
    destruct (IH H) as (u & v & -> & Hu & Hr).
    exists (String c u), v. split_and!; [done| |].
    + rewrite contains_cons, Hu, orb_false_r.
      apply not_true_is_false. intros Hs'.
      rewrite <-sapp_cons in Hs.
      by rewrite (startswith_weaken _ (String c u) _ Hs') in Hs.
    + cbn [replace_go]. rewrite Hs, Hr. by rewrite sapp_cons.
Qed.

(** After the replacement of [t] by a text that blocks it, no occurrence
    of [t] is left. *)
Lemma replace_removes_all t new s :
  t ≠ "" → blocks t new → contains t (replace t new s) = false.
Proof.
  intros Ht Hb. destruct t as [|a t]; [done|].
  remember (String.length s) as n eqn:Hn. revert s Hn.
  induction n as [n IH] using lt_wf_ind. intros s ->.
  destruct (contains (String a t) s) eqn:Hc.
  - destruct (replace_first a t new s Hc) as (u & v & -> & Hu & ->).
    apply not_true_is_false. intros H. apply Hb in H as [H|H]; [congruence|].
    rewrite (IH (String.length v)) in H; [done| |done].
    rewrite !slength_app. simpl. lia.
  - by rewrite replace_absent.
Qed.

Lemma replace_go_keeps_absent t old new s k out :
  blocks t new →
  contains t (out +:+ sdrop k s) = false →
  contains t (out +:+ replace_go old new k s) = false.
Proof.
  intros Hb. revert k out. induction s as [|c s IH]; intros k out H.
  - by rewrite sdrop_nil in H.
  - destruct k as [|k]; simpl in *; [|by apply IH].
    destruct (startswith old (String c s)).
    + rewrite <-sapp_assoc. apply IH.
      apply not_true_is_false. rewrite sapp_assoc. intros Hc.
      apply Hb in Hc as [Hc|Hc].
      * by rewrite (contains_app_l _ _ _ Hc) in H.
      * apply contains_sdrop in Hc.
        rewrite (contains_app_r t out (String c s)) in H; [done|].
        rewrite contains_cons, Hc. apply orb_true_r.
    + rewrite <-sapp_snoc. apply IH. by rewrite sapp_snoc.
Qed.

(** A replacement by a text that blocks [t] brings no occurrence of [t]. *)
Lemma replace_keeps_absent t old new s :
  old ≠ "" → blocks t new →
  contains t s = false → contains t (replace old new s) = false.
Proof.
  intros Ho Hb H. destruct old as [|o old]; [done|].
  unfold replace. by apply (replace_go_keeps_absent t _ _ _ 0%nat "").
Qed.

Lemma blocks_placeholder_numeral t new :
  t ∈ placeholders → numeral new = true → blocks t new.
Proof.
  intros Ht Hn. unfold placeholders in Ht.
  repeat (apply elem_of_cons in Ht as [->|Ht]);
    [..|by apply elem_of_nil in Ht]; by apply blocks_numeral.
Qed.

Lemma expand_placeholder_free pattern y m d key :
  plain_key key = true →
  placeholder_free
    (expand pattern (format0 4 y) (format0 2 m) (format0 2 d) key).
Proof.
  intros Hk. rewrite expand_eq.
  pose proof (format0_numeral 4 y) as Hy.
  pose proof (format0_numeral 2 m) as Hm.
  pose proof (format0_numeral 2 d) as Hd.
  assert (∀ t, t ∈ placeholders → t ≠ "") as Hne.
  { intros t Ht ->. unfold placeholders in Ht.
    repeat (apply elem_of_cons in Ht as [?|Ht]); try done.
    by apply elem_of_nil in Ht. }
  assert (∀ t new, t ∈ placeholders → numeral new = true → blocks t new)
    as Hbn by apply blocks_placeholder_numeral.
  assert (∀ t, t ∈ placeholders → blocks t key) as Hbk.
  { intros t Ht. by apply blocks_plain_key. }
  assert ("{YYYY}" ∈ placeholders) as H1 by (unfold placeholders; repeat constructor).
  assert ("{MM}" ∈ placeholders) as H2 by (unfold placeholders; repeat constructor).
  assert ("{DD}" ∈ placeholders) as H3 by (unfold placeholders; repeat constructor).
  assert ("{dataset-name}" ∈ placeholders) as H4
    by (unfold placeholders; repeat constructor).
  unfold placeholder_free, placeholders. repeat constructor.
  - apply replace_keeps_absent; [done|by apply Hbk|].
    apply replace_keeps_absent; [done|by apply Hbn|].
    apply replace_keeps_absent; [done|by apply Hbn|].
    apply replace_removes_all; [done|by apply Hbn].
  - apply replace_keeps_absent; [done|by apply Hbk|].
    apply replace_keeps_absent; [done|by apply Hbn|].
    apply replace_removes_all; [done|by apply Hbn].
  - apply replace_keeps_absent; [done|by apply Hbk|].
    apply replace_removes_all; [done|by apply Hbn].
  - apply replace_removes_all; [done|by apply Hbk].
Qed.

(** What holds of every expansion holds of every URL of the catalogue. *)
Lemma for_years_Forall (P : string → Prop) years months url_base key day acc l :
  (∀ pattern y m d,
     P (expand pattern (format0 4 y) (format0 2 m) (format0 2 d) key)) →
  Forall P acc →
  for_years years months url_base key day acc = Ok l → Forall P l.
Proof.
  intros HP. revert acc. induction years as [|y rest IHy]; intros acc Hacc H;
    simpl in H; [by simplify_eq|].
  unbind.
  destruct (for_months months (format0 4 y) url_base key day acc)
    as [l1|] eqn:H1; [|done].
  apply (IHy l1); [|done]. clear H IHy. revert acc Hacc H1.
  induction months as [|month rest' IHm]; intros acc Hacc H1; simpl in H1;
    [by simplify_eq|].
  unbind. destruct (int month) as [mv|]; [|done].
  destruct (int day) as [dv|]; [|done].
  eapply IHm; [|exact H1]. rewrite for_patterns_eq.
  apply Forall_app. split; [done|].
  apply Forall_fmap, Forall_forall. intros pattern _. apply HP.
Qed.


(** X3: with a plain key, no URL of a returned catalogue holds any of the
    placeholders [{YYYY}], [{MM}], [{DD}] and [{dataset-name}]. *)
Theorem url_generate_no_placeholder ys ye months url_base key day l :
  plain_key key = true →
  url_generate ys ye months url_base key day = Ok l →
  Forall placeholder_free l.
Proof.
  intros Hk H.
  apply (for_years_Forall placeholder_free _ _ _ _ _ [] l) in H; [done| |done].
  intros pattern y m d. by apply expand_placeholder_free.
Qed.

Lemma url_generate_no_placeholder_witness :
  Forall placeholder_free
    ["https://x/cig-2021/cig_2021_01_01.zip";
     "https://x/cig-2021/cig_2021_02_01.zip"].
Proof.
  apply (url_generate_no_placeholder 2021 2021 ["01"; "02"]
           ["https://x/{dataset-name}-{YYYY}/{dataset-name}_{YYYY}_{MM}_{DD}.zip"]
           "cig" "01"); reflexivity.
Defined.

(** *** Patterns without placeholder *)

Lemma expand_verbatim pattern year_str month_str day_str key :
  placeholder_free pattern →
  expand pattern year_str month_str day_str key = pattern.
Proof.
  unfold placeholder_free, placeholders. intros H.
  apply Forall_cons in H as [H1 H]. apply Forall_cons in H as [H2 H].
  apply Forall_cons in H as [H3 H]. apply Forall_cons in H as [H4 _].
  rewrite expand_eq.
  rewrite (replace_absent "{YYYY}") by done.
  rewrite (replace_absent "{MM}") by done.
  rewrite (replace_absent "{DD}") by done.
  by rewrite (replace_absent "{dataset-name}").
Qed.

Lemma for_months_verbatim months ystr url_base key day acc l :
  Forall placeholder_free url_base →
  for_months months ystr url_base key day acc = Ok l →
  l = acc ++ concat (replicate (length months) url_base).
Proof.
  intros Hp. revert acc. induction months as [|month rest IH]; intros acc H;
    simpl in H.
  { simplify_eq. by rewrite app_nil_r. }
  unbind. destruct (int month) as [mv|]; [|done].
  destruct (int day) as [dv|]; [|done].
  rewrite (IH _ H), for_patterns_eq, <-app_assoc. f_equal.
  cbn [length replicate concat]. f_equal.
  clear -Hp. induction Hp as [|pattern rest Hpat _ IH]; [done|].
  rewrite fmap_cons, IH. by rewrite expand_verbatim.
Qed.

(** X4: patterns without placeholder go into the catalogue as they are,
    the whole pattern list once for every year and month. *)
Theorem url_generate_verbatim ys ye months url_base key day l :
  Forall placeholder_free url_base →
  url_generate ys ye months url_base key day = Ok l →
  l = concat (replicate (Z.to_nat (ye + 1 - ys) * length months) url_base).
Proof.
  intros Hp. unfold url_generate. rewrite <-length_range.
  generalize (range ys (ye + 1)) as years. intros years.
  enough (∀ acc, for_years years months url_base key day acc = Ok l →
            l = acc ++ concat (replicate (length years * length months) url_base))
    as He by apply (He []).
  induction years as [|y rest IH]; intros acc H; simpl in H.
  { simplify_eq. by rewrite app_nil_r. }
  unbind.
  destruct (for_months months (format0 4 y) url_base key day acc)
    as [l1|] eqn:H1; [|done].
  apply (for_months_verbatim _ _ _ _ _ _ _ Hp) in H1 as ->.
  rewrite (IH _ H), <-app_assoc. f_equal.
  cbn [length]. rewrite Nat.mul_succ_l, Nat.add_comm.
  by rewrite replicate_add, concat_app.
Qed.

Lemma url_generate_verbatim_witness :
  ["https://x/a.zip"; "https://x/b.zip"; "https://x/a.zip"; "https://x/b.zip";
   "https://x/a.zip"; "https://x/b.zip"; "https://x/a.zip"; "https://x/b.zip"] =
  concat (replicate (Z.to_nat (2021 + 1 - 2020) * length ["01"; "02"])
            ["https://x/a.zip"; "https://x/b.zip"]).
Proof.
  apply (url_generate_verbatim 2020 2021 ["01"; "02"]
           ["https://x/a.zip"; "https://x/b.zip"] "cig" "01").
  - repeat constructor.
  - reflexivity.
Defined.

End UrlMore.

(** ** The catalogue of [main] *)

Module MainFacts.
Import PyStr Url Fs Merge Main Notions MoreNotions StrFacts UrlFacts.






(** *** The listing of the URLs *)

Lemma print_urls_from_fs i list_urls w :
  fs (print_urls_from i list_urls w) = fs w.
Proof.
  revert i w. induction list_urls as [|url rest IH]; intros i w; [done|].
  simpl. by rewrite IH.
Qed.

Lemma print_urls_from_stdout i list_urls w :
  stdout (print_urls_from i list_urls w) =
  stdout w ++
    imap (λ k url, str_int (i + Z.of_nat k) +:+ ") " +:+ url) list_urls.
Proof.
  revert i w. induction list_urls as [|url rest IH]; intros i w.
  { simpl. by rewrite app_nil_r. }
  simpl. rewrite IH. cbn [stdout print]. rewrite <-app_assoc. f_equal.
  rewrite Z.add_0_r. cbn [app]. f_equal.
  apply imap_ext. intros k u _. simpl. do 2 f_equal. lia.
Qed.

(** X7: [print_list_urls] leaves the file system alone and prints the
    heading and then one line per URL, in the order of the list, numbered
    from 1. *)
Theorem print_list_urls_lines list_urls w :
  fs (print_list_urls list_urls w) = fs w ∧
  stdout (print_list_urls list_urls w) =
  stdout w ++ "List of URLs:" ::
    imap (λ k url, str_int (Z.of_nat k + 1) +:+ ") " +:+ url) list_urls.
Proof.
  unfold print_list_urls. split.
  - by rewrite print_urls_from_fs.
  - rewrite print_urls_from_stdout. cbn [stdout print].
    rewrite <-app_assoc. cbn [app]. do 2 f_equal.
    apply imap_ext. intros k u _. simpl. do 2 f_equal. lia.
Qed.

(** *** The catalogue *)






End MainFacts.

(** ** The prefix normalizer on decorated stems *)

Module NormalizeMore.
Import PyStr Re Fs Merge Notions MoreNotions StrFacts NormalizeFacts.

(** Atoms that do not match an underscore find nothing new in a text
    lengthened behind an underscore. *)
Lemma match_atoms_before_underscore l b s r :
  Forall (λ a, atom_matches a "_" = false) l →
  match_atoms l (b +:+ String "_" s) = Some r →
  ∃ r', match_atoms l b = Some r'.
Proof.
  intros Hl. revert b. induction Hl as [|a l Ha Hl IH]; intros b H.
  { by eexists. }
  destruct b as [|c b].
  - rewrite sapp_nil_l in H. simpl in H. by rewrite Ha in H.
  - rewrite sapp_cons in H. simpl in *.
    destruct (atom_matches a c); [by apply IH|done].
Qed.

Lemma begins_with_date_before_underscore base s :
  begins_with_date (base +:+ String "_" s) → begins_with_date base.
Proof.
  intros (m & r & Hm & E).
  assert (match_atoms (atoms leading_date) (base +:+ String "_" s) = Some r)
    as H.
  { rewrite E. by apply match_atoms_fits, fits_leading_date. }
  apply match_atoms_before_underscore in H as [r' H].
  - apply match_atoms_inv in H as (m' & -> & Hm').
    exists m', r'. split; [by apply fits_leading_date|done].
  - repeat constructor.
Qed.

(** X8: the stems of one dataset normalize to its base name.  A stem
    with both a date stamp and a period stamp normalizes to what stands
    between them, whatever that is; a stem with a period stamp only does
    when the base does not begin with a date stamp, and a stem with a date
    stamp only when the base does not end with a period stamp. *)
Theorem normalize_prefix_decorated base d y mo :
  String.length d = 8%nat → sforall is_digit d = true →
  String.length y = 4%nat → sforall is_digit y = true →
  String.length mo = 2%nat → sforall is_digit mo = true →
  normalize_prefix (d +:+ "-" +:+ base +:+ "_" +:+ y +:+ "_" +:+ mo) = base ∧
  (¬ begins_with_date base →
   normalize_prefix (base +:+ "_" +:+ y +:+ "_" +:+ mo) = base) ∧
  (¬ ends_with_period base → normalize_prefix (d +:+ "-" +:+ base) = base).
Proof.
  intros Hd1 Hd2 Hy1 Hy2 Hm1 Hm2.
  assert (date_stamp (d +:+ "-")) as Hds by (by exists d).
  assert (period_stamp ("_" +:+ y +:+ "_" +:+ mo)) as Hps by (by exists y, mo).
  unfold normalize_prefix. split_and!.
  - rewrite <-(sapp_assoc d "-"), sub_leading_date_present by done.
    by apply sub_trailing_period_present.
  - intros Hb. rewrite sub_leading_date_absent.
    + by apply sub_trailing_period_present.
    + intros H. apply Hb. by apply begins_with_date_before_underscore in H.
  - intros He. rewrite <-(sapp_assoc d "-"), sub_leading_date_present by done.
    by apply sub_trailing_period_absent.
Qed.

Lemma not_begins_with_date s :
  match_atoms (atoms leading_date) s = None → ¬ begins_with_date s.
Proof.
  intros H (m & r & Hm & ->).
  by rewrite match_atoms_fits in H by (by apply fits_leading_date).
Qed.

Lemma not_ends_with_period s :
  sub trailing_period "" s = s → ¬ ends_with_period s.
Proof.
  intros H (r & m & Hm & [->| ->]).
  - rewrite sub_trailing_period_present in H by done.
    pose proof (f_equal String.length H) as Hl.
    rewrite slength_app, (period_stamp_length _ Hm) in Hl. lia.
  - rewrite sub_trailing_period_newline in H by done.
    pose proof (f_equal String.length H) as Hl.
    rewrite !slength_app, (period_stamp_length _ Hm) in Hl. lia.
Qed.

Lemma normalize_prefix_decorated_witness :
  normalize_prefix ("20240115" +:+ "-" +:+ "bando_cig" +:+ "_" +:+ "2024" +:+
                    "_" +:+ "01") = "bando_cig" ∧
  normalize_prefix ("bando_cig" +:+ "_" +:+ "2024" +:+ "_" +:+ "01") =
    "bando_cig" ∧
  normalize_prefix ("20240115" +:+ "-" +:+ "bando_cig") = "bando_cig".
Proof.
  destruct (normalize_prefix_decorated "bando_cig" "20240115" "2024" "01")
    as (H1 & H2 & H3); [reflexivity..|].
  split_and!; [exact H1|apply H2|apply H3].
  - apply not_begins_with_date. reflexivity.
  - apply not_ends_with_period. reflexivity.
Defined.

End NormalizeMore.

(** ** CSV consolidation: what changes, what is raised *)

Module MergeMore.
Import PyStr Re Fs Merge Notions MoreNotions StrFacts FsFacts MergeFacts.

(** *** What the call changes *)

Lemma merge_prefix_change all_csv_files output p mr w mr' w' (q : path) :
  merge_prefix all_csv_files output p (mr, w) = Ok (mr', w') →
  fs w' !! q ≠ fs w !! q →
  q = out_path output p ∧ matched_files all_csv_files p ≠ [] ∧
  (∃ content, fs w' !! q = Some (File content)) ∧ fs w !! q ≠ Some Dir.
Proof.
  intros H Hq.
  apply merge_prefix_inv in H as [(_ & _ & ->)|(Hm & Hd & texts & _ & E & _)];
    [done|].
  rewrite E in Hq |- *.
  destruct (decide (q = out_path output p)) as [->|Hne].
  - split_and!; [done..| |].
    + rewrite lookup_insert_eq. by eexists.
    + rewrite is_dir_out_path in Hd. intros Hd'. by rewrite Hd' in Hd.
  - by rewrite lookup_insert_ne in Hq.
Qed.

Lemma for_prefixes_change prefixes all_csv_files output st st' (q : path) :
  for_prefixes prefixes all_csv_files output st = Ok st' →
  fs st'.2 !! q ≠ fs st.2 !! q →
  ∃ p, p ∈ prefixes ∧ matched_files all_csv_files p ≠ [] ∧
    q = out_path output p ∧
    (∃ content, fs st'.2 !! q = Some (File content)) ∧
    fs st.2 !! q ≠ Some Dir.
Proof.
  revert st. induction prefixes as [|p0 rest IH]; intros st H Hq; simpl in H.
  { by simplify_eq. }
  unfold mbind, result_bind in H.
  destruct (merge_prefix _ _ _ st) as [[mr1 w1]|] eqn:H1; [|done].
  destruct st as [mr w]. cbn [snd] in *.
  destruct (decide (fs st'.2 !! q = fs w1 !! q)) as [E|Hne].
  - rewrite E in Hq.
    destruct (merge_prefix_change _ _ _ _ _ _ _ _ H1 Hq) as (-> & Hm & Hc & Hd).
    exists p0. split_and!; [by left|done..| |done]. by rewrite E.
  - destruct (IH _ H Hne) as (p & Hp & Hm & -> & Hc & Hd).
    exists p. split_and!; [by right|done..|].
    intros Hd'. apply Hd. cbn [snd].
    by apply (merge_prefix_dirs _ _ _ _ _ _ _ _ H1).
Qed.

(** X9: what [merge_csv_files] changes in the file system.  An entry
    that differs after a returned call is either a directory of the output
    path that was missing and has been created, or the merged file of a
    requested prefix of the summary, and it does not stand in the place of
    a directory; so nothing is removed, and no other file is touched. *)
Theorem merge_frame source output prefixes w mr w' :
  merge_csv_files source output prefixes w = Ok (mr, w') →
  (∀ q, fs w' !! q ≠ fs w !! q →
     (fs w !! q = None ∧ fs w' !! q = Some Dir ∧ q `prefix_of` output) ∨
     (∃ p, p ∈ prefixes ∧ is_Some (mr !! p) ∧
        q = output ++ [p +:+ ".csv"] ∧
        (∃ content, fs w' !! q = Some (File content)) ∧
        fs w !! q ≠ Some Dir)) ∧
  (∀ q, is_Some (fs w !! q) → is_Some (fs w' !! q)).
Proof.
  intros H.
  assert (∀ q, fs w' !! q ≠ fs w !! q →
     (fs w !! q = None ∧ fs w' !! q = Some Dir ∧ q `prefix_of` output) ∨
     (∃ p, p ∈ prefixes ∧ is_Some (mr !! p) ∧
        q = output ++ [p +:+ ".csv"] ∧
        (∃ content, fs w' !! q = Some (File content)) ∧
        fs w !! q ≠ Some Dir)) as Hchange.
  { intros q Hq.
    apply merge_csv_files_inv in H as (m1 & Hm & Hcases).
    assert (fs w' !! q = m1 !! q →
            fs w !! q = None ∧ fs w' !! q = Some Dir ∧ q `prefix_of` output)
      as Hmk.
    { intros E. rewrite E in Hq |- *.
      by destruct (mkdir_go_lookup _ _ _ _ Hm q) as [?|?]. }
    destruct Hcases as [(_ & _ & ->)|[(_ & _ & _ & ->)|(_ & _ & Hloop)]];
      [left; by apply Hmk..|].
    destruct (decide (fs w' !! q = m1 !! q)) as [E|Hne]; [left; by apply Hmk|].
    right.
    destruct (for_prefixes_change _ _ _ _ _ q Hloop Hne)
      as (p & Hp & Hmf & -> & Hc & Hd).
    cbn [snd fs with_fs] in *.
    exists p. split_and!; [done| |done..|].
    - destruct (for_prefixes_entries _ _ _ _ _ p Hloop) as [H1 _].
      destruct (H1 Hp Hmf) as (r & c & Hr & _). by exists r.
    - intros Hd'. apply Hd. by apply (mkdir_parents_kept _ _ _ _ _ Hm). }
  split; [done|]. intros q [n Hn].
  destruct (decide (fs w' !! q = fs w !! q)) as [->|Hne]; [by eexists|].
  destruct (Hchange q Hne) as [(? & _)|(p & _ & _ & _ & [c ->] & _)];
    [congruence|by eexists].
Qed.

Lemma merge_frame_witness :
  (∀ q, fs sample_final !! q ≠ fs sample_world !! q →
     (fs sample_world !! q = None ∧ fs sample_final !! q = Some Dir ∧
      q `prefix_of` ["out"]) ∨
     (∃ p, p ∈ ["a"; "c"] ∧ is_Some (sample_summary !! p) ∧
        q = ["out"] ++ [p +:+ ".csv"] ∧
        (∃ content, fs sample_final !! q = Some (File content)) ∧
        fs sample_world !! q ≠ Some Dir)) ∧
  (∀ q, is_Some (fs sample_world !! q) → is_Some (fs sample_final !! q)).
Proof.
  apply (merge_frame ["src"] ["out"] ["a"; "c"] sample_world
           sample_summary sample_final).
  by vm_compute.
Defined.

(** *** What the call raises *)

Lemma mkdir_go_raise pre rest m e :
  mkdir_go pre rest m = Raise e →
  ∃ q content, q `prefix_of` rest ∧ q ≠ [] ∧
    m !! (pre ++ q) = Some (File content) ∧
    ((q = rest ∧ e = FileExistsError) ∨ (q ≠ rest ∧ e = NotADirectoryError)).
Proof.
  revert pre m. induction rest as [|c rest IH]; intros pre m H; simpl in H;
    [done|].
  assert (∀ m2, (∀ q, q ≠ [] → m2 !! ((pre ++ [c]) ++ q) = m !! (pre ++ c :: q)) →
            mkdir_go (pre ++ [c]) rest m2 = Raise e →
            ∃ q content, q `prefix_of` c :: rest ∧ q ≠ [] ∧
              m !! (pre ++ q) = Some (File content) ∧
              ((q = c :: rest ∧ e = FileExistsError) ∨
               (q ≠ c :: rest ∧ e = NotADirectoryError))) as Hrec.
  { intros m2 Hm2 H2.
    destruct (IH _ _ H2) as (q & content & Hq & Hne & Hf & He).
    exists (c :: q), content. split_and!; [by apply prefix_cons|done| |].
    - by rewrite <-Hm2.
    - destruct He as [[-> ->]|[Hq' ->]]; [by left|right].
      split; [|done]. intros E. by simplify_eq. }
  destruct (m !! (pre ++ [c])) as [[|content]|] eqn:Hp.
  - apply (Hrec m); [|done]. intros q _. by rewrite <-app_assoc.
  - exists [c], content. split_and!; [apply prefix_cons, prefix_nil|done..|].
    destruct rest; simplify_eq; [by left|by right].
  - apply (Hrec (<[pre ++ [c] := Dir]> m)); [|done]. intros q Hq.
    rewrite lookup_insert_ne; [by rewrite <-app_assoc|].
    intros E. apply (f_equal length) in E. rewrite !length_app in E.
    destruct q; [done|]. simpl in E. lia.
Qed.

Lemma write_all_raise matched prefix_name buf w e :
  write_all matched prefix_name buf w = Raise e →
  ∃ f, f ∈ matched ∧ read_text f (fs w) = Raise e.
Proof.
  revert buf w. induction matched as [|f rest IH]; intros buf w H; simpl in H;
    [done|].
  unfold mbind, result_bind in H.
  destruct (read_text f (fs w)) as [text|e'] eqn:Hr.
  - destruct (IH _ _ H) as (f' & Hf' & Hr'). exists f'. split; [by right|done].
  - simplify_eq. exists f. split; [by left|done].
Qed.

Lemma open_w_out_path (m : gmap path node) (output : path) (p : string) :
  is_dir m output = true →
  open_w (out_path output p) m =
  if is_dir m (out_path output p) then Raise IsADirectoryError
  else Ok (<[out_path output p := File ""]> m).
Proof.
  intros Ho. unfold open_w. destruct (is_dir m (out_path output p)); [done|].
  unfold out_path at 1. rewrite parent_snoc. unfold is_dir in Ho.
  by destruct (node_at m output) as [[|?]|].
Qed.

Lemma merge_prefix_raise all_csv_files output p mr w e :
  merge_prefix all_csv_files output p (mr, w) = Raise e →
  is_dir (fs w) output = true →
  matched_files all_csv_files p ≠ [] ∧
  ((e = IsADirectoryError ∧ fs w !! out_path output p = Some Dir) ∨
   (∃ f, f ∈ matched_files all_csv_files p ∧
      read_text f (<[out_path output p := File ""]> (fs w)) = Raise e)).
Proof.
  unfold merge_prefix. fold (out_path output p). intros H Ho.
  destruct (matched_files all_csv_files p) as [|f0 rest] eqn:Hm; [done|].
  split; [done|]. cbn [fst snd] in H. unfold mbind, result_bind in H.
  rewrite (open_w_out_path _ _ _ Ho), is_dir_out_path in H.
  destruct (fs w !! out_path output p) as [[|?]|] eqn:Hd.
  - left. by simplify_eq.
  - destruct (write_all _ _ _ _) as [[buf w2]|e'] eqn:Hw.
    + cbn [fst snd fs with_fs] in H. by rewrite read_text_written in H.
    + simplify_eq. right. by apply write_all_raise in Hw.
  - destruct (write_all _ _ _ _) as [[buf w2]|e'] eqn:Hw.
    + cbn [fst snd fs with_fs] in H. by rewrite read_text_written in H.
    + simplify_eq. right. by apply write_all_raise in Hw.
Qed.

Lemma merge_prefix_dir_back all_csv_files output p mr w mr' w' (q : path) :
  merge_prefix all_csv_files output p (mr, w) = Ok (mr', w') →
  fs w' !! q = Some Dir → fs w !! q = Some Dir.
Proof.
  intros H Hq. destruct (decide (fs w' !! q = fs w !! q)) as [<-|Hne]; [done|].
  destruct (merge_prefix_change _ _ _ _ _ _ _ _ H Hne) as (_ & _ & [c Hc] & _).
  congruence.
Qed.

Lemma merge_prefix_exists all_csv_files output p mr w mr' w' (q : path) :
  merge_prefix all_csv_files output p (mr, w) = Ok (mr', w') →
  is_Some (fs w !! q) → is_Some (fs w' !! q).
Proof.
  intros H Hq. destruct (decide (fs w' !! q = fs w !! q)) as [->|Hne]; [done|].
  destruct (merge_prefix_change _ _ _ _ _ _ _ _ H Hne) as (_ & _ & [c ->] & _).
  by eexists.
Qed.

Lemma for_prefixes_raise prefixes all_csv_files output st e :
  for_prefixes prefixes all_csv_files output st = Raise e →
  is_dir (fs st.2) output = true →
  (∀ f, f ∈ all_csv_files → f ≠ [] ∧ is_Some (fs st.2 !! f)) →
  e = IsADirectoryError ∧
  ∃ p, p ∈ prefixes ∧ matched_files all_csv_files p ≠ [] ∧
    (fs st.2 !! out_path output p = Some Dir ∨
     ∃ f, f ∈ matched_files all_csv_files p ∧ fs st.2 !! f = Some Dir).
Proof.
  revert st. induction prefixes as [|p0 rest IH]; intros [mr w] H Ho Hl;
    simpl in H; [done|].
  cbn [snd] in *. unfold mbind, result_bind in H.
  destruct (merge_prefix _ _ _ (mr, w)) as [[mr1 w1]|e'] eqn:H1.
  - destruct (IH (mr1, w1) H) as (-> & p & Hp & Hm & Hd).
    + cbn [snd]. apply is_dir_true in Ho as [->|Ho]; [done|].
      apply is_dir_true. right.
      by apply (merge_prefix_dirs _ _ _ _ _ _ _ _ H1).
    + intros f Hf. destruct (Hl f Hf) as [Hne Hs]. split; [done|].
      by apply (merge_prefix_exists _ _ _ _ _ _ _ _ H1).
    + split; [done|]. exists p. split_and!; [by right|done|].
      cbn [snd] in Hd. destruct Hd as [Hd|(f & Hf & Hd)].
      * left. by apply (merge_prefix_dir_back _ _ _ _ _ _ _ _ H1).
      * right. exists f. split; [done|].
        by apply (merge_prefix_dir_back _ _ _ _ _ _ _ _ H1).
  - simplify_eq.
    apply merge_prefix_raise in H1 as [Hm [[-> Hd]|(f & Hf & Hr)]]; [| |done].
    + split; [done|]. exists p0. split_and!; [by left|done|by left].
    + assert (f ∈ all_csv_files) as Hin.
      { by apply elem_of_matched_files in Hf as [_ ?]. }
      destruct (Hl f Hin) as [Hne [n Hn]].
      unfold read_text in Hr. destruct f as [|c f]; [done|].
      cbn [node_at] in Hr.
      destruct (decide (c :: f = out_path output p0)) as [E|Hne'].
      { rewrite E, lookup_insert_eq in Hr. done. }
      rewrite lookup_insert_ne, Hn in Hr by done.
      destruct n as [|content]; [|done]. simplify_eq.
      split; [done|]. exists p0. split_and!; [by left|done|].
      right. by exists (c :: f).
Qed.

(** X10: what [merge_csv_files] raises.  [FileExistsError] when the path
    of the output directory is taken by a file, [NotADirectoryError] when
    one of its ancestors is a file, and otherwise [IsADirectoryError], for a
    requested prefix that selects entries, when the merged file of the
    prefix would replace a directory or an entry selected for it is a
    directory; nothing else is raised. *)
Theorem merge_raises source output prefixes w e :
  merge_csv_files source output prefixes w = Raise e →
  (e = FileExistsError ∧ ∃ content, fs w !! output = Some (File content)) ∨
  (e = NotADirectoryError ∧
   ∃ q content, q `prefix_of` output ∧ q ≠ output ∧
     fs w !! q = Some (File content)) ∨
  (e = IsADirectoryError ∧
   ∃ m1 p, mkdir_parents output (fs w) = Ok m1 ∧ p ∈ prefixes ∧
     matched_files (sorted (glob_csv m1 source)) p ≠ [] ∧
     (m1 !! (output ++ [p +:+ ".csv"]) = Some Dir ∨
      ∃ f, f ∈ matched_files (sorted (glob_csv m1 source)) p ∧
        m1 !! f = Some Dir)).
Proof.
  unfold merge_csv_files, mbind, result_bind. cbv zeta.
  destruct (mkdir_parents output (fs w)) as [m1|e'] eqn:Hm.
  - cbn [fs with_fs]. destruct (is_dir m1 source) eqn:Hd; cbn [negb]; [|done].
    destruct prefixes as [|p0 rest]; [done|]. intros H.
    apply for_prefixes_raise in H as (-> & p & Hp & Hmf & Hdir).
    + right. right. split; [done|]. by exists m1, p.
    + cbn [snd fs with_fs]. by apply (mkdir_parents_is_dir output (fs w)).
    + intros f Hf. cbn [snd fs with_fs].
      apply elem_of_listing in Hf as (Hs & x & -> & _).
      split; [by destruct source|done].
  - intros ?. simplify_eq.
    apply mkdir_go_raise in Hm as (q & content & Hq & Hne & Hf & He).
    simpl in Hf. destruct He as [[-> ->]|[Hq' ->]].
    + left. split; [done|]. by exists content.
    + right. left. split; [done|]. by exists q, content.
Qed.

Lemma merge_raises_witness :
  (IsADirectoryError = FileExistsError ∧
   ∃ content, fs sample_world !! ["out"] = Some (File content)) ∨
  (IsADirectoryError = NotADirectoryError ∧
   ∃ q content, q `prefix_of` ["out"] ∧ q ≠ ["out"] ∧
     fs sample_world !! q = Some (File content)) ∨
  (IsADirectoryError = IsADirectoryError ∧
   ∃ m1 p, mkdir_parents ["out"] (fs sample_world) = Ok m1 ∧
     p ∈ ["a"; "old"] ∧
     matched_files (sorted (glob_csv m1 ["src"])) p ≠ [] ∧
     (m1 !! (["out"] ++ [p +:+ ".csv"]) = Some Dir ∨
      ∃ f, f ∈ matched_files (sorted (glob_csv m1 ["src"])) p ∧
        m1 !! f = Some Dir)).
Proof.
  apply (merge_raises ["src"] ["out"] ["a"; "old"] sample_world
           IsADirectoryError).
  by vm_compute.
Defined.

(** *** The summary as a function of the set of prefixes *)

Lemma contents_texts (m : gmap path node) l contents :
  Forall2 (λ f (c : string), m !! f = Some (File c)) l contents →
  universal_newlines <$> contents = text_at m <$> l.
Proof.
  induction 1 as [|f c l contents Hf _ IH]; [done|].
  rewrite !fmap_cons, IH. unfold text_at at 2. by rewrite Hf.
Qed.

Lemma for_prefixes_merged prefixes all_csv_files output mr w mr' w' p :
  for_prefixes prefixes all_csv_files output (mr, w) = Ok (mr', w') →
  (∀ f p', f ∈ all_csv_files → f ≠ out_path output p' ∧ f ≠ []) →
  p ∈ prefixes → matched_files all_csv_files p ≠ [] →
  fs w' !! out_path output p =
  Some (File (merged_text (fs w) all_csv_files p)).
Proof.
  intros H Hsrc Hp Hm.
  destruct (for_prefixes_content _ _ _ _ _ p H Hsrc Hp Hm)
    as (contents & Hc & Ho).
  cbn [fst snd] in *. rewrite Ho.
  unfold merged_text. by rewrite (contents_texts _ _ _ Hc).
Qed.

Lemma for_prefixes_summary prefixes all_csv_files output w mr' w' p :
  for_prefixes prefixes all_csv_files output (∅, w) = Ok (mr', w') →
  (∀ f p', f ∈ all_csv_files → f ≠ out_path output p' ∧ f ≠ []) →
  (p ∈ prefixes ∧ matched_files all_csv_files p ≠ [] →
   mr' !! p = Some (entry_of (fs w) all_csv_files output p)) ∧
  (¬ (p ∈ prefixes ∧ matched_files all_csv_files p ≠ []) → mr' !! p = None).
Proof.
  intros H Hsrc. destruct (for_prefixes_entries _ _ _ _ _ p H) as [H1 H2].
  cbn [fst snd] in *. split.
  - intros [Hp Hm]. destruct (H1 Hp Hm) as (r & c & -> & Hf & Ho & Hc & Hl).
    pose proof (for_prefixes_merged _ _ _ _ _ _ _ p H Hsrc Hp Hm) as Hc'.
    rewrite Hc in Hc'. simplify_eq.
    f_equal. destruct r as [o n k]. unfold entry_of. simpl in *. by subst.
  - intros Hn. by rewrite (H2 Hn), lookup_empty.
Qed.

(** X11: with an output directory that is not the source directory, the
    summary and the file system a call leaves depend on the set of the
    requested prefixes only, not on their order or on repetitions. *)
Theorem merge_prefix_set source output prefixes1 prefixes2 w mr1 w1 mr2 w2 :
  output ≠ source →
  (∀ p, p ∈ prefixes1 ↔ p ∈ prefixes2) →
  merge_csv_files source output prefixes1 w = Ok (mr1, w1) →
  merge_csv_files source output prefixes2 w = Ok (mr2, w2) →
  mr1 = mr2 ∧ fs w1 = fs w2.
Proof.
  intros Hne Hset H1 H2.
  apply merge_csv_files_inv in H1 as (m1 & Hm & C1).
  apply merge_csv_files_inv in H2 as (m1' & Hm' & C2).
  rewrite Hm in Hm'. simplify_eq.
  assert (prefixes1 = [] → prefixes2 = []) as He12.
  { intros ->. destruct prefixes2 as [|p l]; [done|].
    exfalso. apply (elem_of_nil p), Hset, elem_of_cons. by left. }
  assert (prefixes2 = [] → prefixes1 = []) as He21.
  { intros ->. destruct prefixes1 as [|p l]; [done|].
    exfalso. apply (elem_of_nil p), Hset, elem_of_cons. by left. }
  destruct C1 as [(Hd1 & -> & ->)|[(Hd1 & Hp1 & -> & ->)|(Hd1 & Hp1 & L1)]];
    destruct C2 as [(Hd2 & -> & ->)|[(Hd2 & Hp2 & -> & ->)|(Hd2 & Hp2 & L2)]];
    try done; try congruence; try (by destruct Hp2; auto);
    try (by destruct Hp1; auto).
  set (L := sorted (glob_csv m1' source)) in *.
  assert (∀ f p', f ∈ L → f ≠ out_path output p' ∧ f ≠ []) as Hsrc.
  { intros f p' Hf. by apply (listing_not_output m1' source). }
  split.
  - apply map_eq. intros p.
    destruct (for_prefixes_summary _ _ _ _ _ _ p L1 Hsrc) as [A1 B1].
    destruct (for_prefixes_summary _ _ _ _ _ _ p L2 Hsrc) as [A2 B2].
    destruct (decide (p ∈ prefixes1 ∧ matched_files L p ≠ [])) as [[Hp Hmf]|Hn].
    + rewrite A1, A2; [done|split; [by apply Hset|done]|done].
    + rewrite B1, B2; [done| |done]. intros [Hp Hmf]. apply Hn.
      split; [by apply Hset|done].
  - apply map_eq. intros q.
    destruct (decide (fs w1 !! q = m1' !! q)) as [E1|N1];
      destruct (decide (fs w2 !! q = m1' !! q)) as [E2|N2].
    + congruence.
    + destruct (for_prefixes_change _ _ _ _ _ q L2 N2)
        as (p & Hp & Hmf & -> & _).
      rewrite (for_prefixes_merged _ _ _ _ _ _ _ p L2 Hsrc Hp Hmf).
      by rewrite (for_prefixes_merged _ _ _ _ _ _ _ p L1 Hsrc
                    (proj2 (Hset p) Hp) Hmf).
    + destruct (for_prefixes_change _ _ _ _ _ q L1 N1)
        as (p & Hp & Hmf & -> & _).
      rewrite (for_prefixes_merged _ _ _ _ _ _ _ p L1 Hsrc Hp Hmf).
      by rewrite (for_prefixes_merged _ _ _ _ _ _ _ p L2 Hsrc
                    (proj1 (Hset p) Hp) Hmf).
    + destruct (for_prefixes_change _ _ _ _ _ q L1 N1)
        as (p & Hp & Hmf & -> & _).
      rewrite (for_prefixes_merged _ _ _ _ _ _ _ p L1 Hsrc Hp Hmf).
      by rewrite (for_prefixes_merged _ _ _ _ _ _ _ p L2 Hsrc
                    (proj1 (Hset p) Hp) Hmf).
Qed.

(** *** The count of lines *)

Lemma count_lines_app_le a b :
  (count_lines (a +:+ b) ≤ count_lines a + count_lines b)%nat.
Proof.
  induction a as [|c a IH]; [done|]. rewrite sapp_cons. simpl.
  destruct (Ascii.eqb c "010"); [lia|].
  destruct a as [|c' a].
  - rewrite sapp_nil_l. destruct b; simpl; lia.
  - rewrite sapp_cons in *. lia.
Qed.

Lemma count_lines_sconcat_le texts :
  (count_lines (sconcat texts) ≤ total (count_lines <$> texts))%nat.
Proof.
  induction texts as [|t texts IH]; [done|].
  cbn [sconcat foldr fmap list_fmap total].
  pose proof (count_lines_app_le t (sconcat texts)) as H.
  unfold sconcat, total in *. lia.
Qed.

Lemma count_lines_sconcat texts :
  Forall (λ t, t = "" ∨ slast t = Some "010"%char) texts →
  count_lines (sconcat texts) = total (count_lines <$> texts).
Proof.
  induction 1 as [|t texts Ht _ IH]; [done|].
  cbn [sconcat foldr fmap list_fmap total].
  rewrite count_lines_app by done. unfold sconcat, total in *. by rewrite IH.
Qed.

(** X12: with an output directory that is not the source directory, the
    [lines] of an entry of the summary is at most the sum of the numbers
    of lines of the files merged for the prefix, and it is that sum when
    each of these files is empty or ends with a line terminator. *)
Theorem merge_lines_sum source output prefixes w mr w' p r :
  output ≠ source →
  merge_csv_files source output prefixes w = Ok (mr, w') →
  mr !! p = Some r →
  ∃ contents,
    Forall2 (λ f (c : string), fs w !! f = Some (File c))
      (matched_files (sorted (glob_csv (fs w) source)) p) contents ∧
    (lines r ≤ total (line_count <$> contents))%nat ∧
    (Forall (λ c, universal_newlines c = "" ∨ terminated c) contents →
     lines r = total (line_count <$> contents)).
Proof.
  intros Hne H Hr.
  destruct (merge_result_entry _ _ _ _ _ _ _ _ H Hr)
    as (m1 & Hm & Hp & Hmf & Hloop).
  assert (∀ f p', f ∈ sorted (glob_csv m1 source) →
            f ≠ out_path output p' ∧ f ≠ []) as Hsrc.
  { intros f p' Hf. by apply (listing_not_output m1 source). }
  destruct (for_prefixes_content _ _ _ _ _ p Hloop Hsrc Hp Hmf)
    as (contents & Hc & Ho).
  destruct (for_prefixes_entries _ _ _ _ _ p Hloop) as [H1 _].
  destruct (H1 Hp Hmf) as (r' & content & Hr' & _ & _ & Hc' & Hl).
  cbn [fst snd fs with_fs] in *. simplify_eq.
  rewrite <-(matched_files_initial _ _ _ _ _ _ _ Hm Hloop Hp).
  exists contents.
  assert (universal_newlines (sconcat (universal_newlines <$> contents)) =
          sconcat (universal_newlines <$> contents)) as Eid.
  { apply universal_newlines_id, no_cr_sconcat, Forall_fmap, Forall_forall.
    intros c _. apply universal_newlines_no_cr. }
  assert (line_count <$> contents =
          count_lines <$> (universal_newlines <$> contents)) as Elc.
  { by rewrite <-list_fmap_compose. }
  rewrite Hl, Eid, Elc. split_and!.
  - eapply Forall2_impl; [done|]. intros f c Hf. cbn in Hf.
    by apply (mkdir_parents_file _ _ _ _ _ Hm).
  - apply count_lines_sconcat_le.
  - intros Ht. apply count_lines_sconcat, Forall_fmap.
    eapply Forall_impl; [done|]. by intros c [?|?]; [left|right].
Qed.

Lemma merge_lines_sum_witness :
  ∃ contents,
    Forall2 (λ f (c : string), fs sample_world !! f = Some (File c))
      (matched_files (sorted (glob_csv (fs sample_world) ["src"])) "a")
      contents ∧
    (lines {| output_file := "/out/a.csv"; files_merged := 2; lines := 4 |} ≤
     total (line_count <$> contents))%nat ∧
    (Forall (λ c, universal_newlines c = "" ∨ terminated c) contents →
     lines {| output_file := "/out/a.csv"; files_merged := 2; lines := 4 |} =
     total (line_count <$> contents)).
Proof.
  apply (merge_lines_sum ["src"] ["out"] ["a"; "c"] sample_world
           sample_summary sample_final "a"
           {| output_file := "/out/a.csv"; files_merged := 2; lines := 4 |});
    by vm_compute.
Defined.

Lemma merge_prefix_set_witness :
  sample_summary =
    default ∅ (summary_of
      (merge_csv_files ["src"] ["out"] ["c"; "a"; "a"] sample_world)) ∧
  fs sample_final =
    fs (default sample_world (final_of
      (merge_csv_files ["src"] ["out"] ["c"; "a"; "a"] sample_world))).
Proof.
  apply (merge_prefix_set ["src"] ["out"] ["a"; "c"] ["c"; "a"; "a"]
           sample_world).
  - by vm_compute.
  - intros p. rewrite !elem_of_cons, !elem_of_nil. tauto.
  - by vm_compute.
  - by vm_compute.
Defined.

End MergeMore.

(** ** Running the merge again *)

Module MergeAgain.
Import PyStr Re Fs Merge Notions MoreNotions StrFacts FsFacts MergeFacts
  MergeMore.

Lemma mkdir_go_noop (pre rest : path) (m : gmap path node) :
  (∀ q, q `prefix_of` rest → q ≠ [] → m !! (pre ++ q) = Some Dir) →
  mkdir_go pre rest m = Ok m.
Proof.
  revert pre. induction rest as [|c rest IH]; intros pre H; [done|].
  simpl. rewrite (H [c]); [|by apply prefix_cons, prefix_nil|done].
  apply IH. intros q Hq Hne. rewrite <-app_assoc. apply H; [|done].
  by apply prefix_cons.
Qed.

Lemma listing_ext (m m' : gmap path node) source :
  (∀ x, m !! (source ++ [x]) = m' !! (source ++ [x])) →
  sorted (glob_csv m source) = sorted (glob_csv m' source).
Proof.
  intros H. apply (Sorted_unique path_le); [apply sorted_Sorted..|].
  apply NoDup_Permutation.
  - rewrite sorted_Permutation. apply NoDup_glob_csv.
  - rewrite sorted_Permutation. apply NoDup_glob_csv.
  - intros f. rewrite !elem_of_listing.
    split; intros (Hs & x & -> & Hx); (split; [|by exists x]).
    + by rewrite <-H.
    + by rewrite H.
Qed.

Lemma merged_text_ext (m m' : gmap path node) all_csv_files p :
  (∀ f, f ∈ all_csv_files → m !! f = m' !! f) →
  merged_text m all_csv_files p = merged_text m' all_csv_files p.
Proof.
  intros H. unfold merged_text. f_equal. apply list_fmap_ext.
  intros i f Hf. unfold text_at. rewrite H; [done|].
  apply list_elem_of_lookup_2 in Hf.
  by apply elem_of_matched_files in Hf as [_ ?].
Qed.

Lemma for_prefixes_stable (m : gmap path node) prefixes all_csv_files output
    mr w :
  fs w = m →
  is_dir m output = true →
  (∀ f p', f ∈ all_csv_files → f ≠ out_path output p' ∧ f ≠ []) →
  (∀ p, p ∈ prefixes → matched_files all_csv_files p ≠ [] →
     m !! out_path output p =
       Some (File (merged_text m all_csv_files p)) ∧
     Forall (λ f, ∃ content, m !! f = Some (File content))
       (matched_files all_csv_files p)) →
  ∃ mr' w', for_prefixes prefixes all_csv_files output (mr, w) = Ok (mr', w') ∧
    fs w' = m.
Proof.
  intros Hw Hd Hsrc. revert mr w Hw.
  induction prefixes as [|p rest IH]; intros mr w Hw Hp; simpl.
  { by eexists _, _. }
  assert (∃ mr1 w1, merge_prefix all_csv_files output p (mr, w) = Ok (mr1, w1) ∧
            fs w1 = m) as (mr1 & w1 & -> & Hw1).
  { destruct (decide (matched_files all_csv_files p = [])) as [E|Hne].
    { exists mr, w. split; [|done]. unfold merge_prefix. cbv zeta.
      by rewrite E. }
    destruct (Hp p) as [Ho Hf]; [by left|done|].
    destruct (merge_prefix_total all_csv_files output p mr w)
      as [[mr1 w1] H1].
    - by rewrite Hw.
    - by rewrite is_dir_out_path, Hw, Ho.
    - apply Forall_forall. intros f Hin.
      rewrite Forall_forall in Hf. destruct (Hf f Hin) as [c Hc].
      apply elem_of_matched_files in Hin as [_ Hin].
      destruct (Hsrc f p Hin). rewrite Hw. exists c. by split_and!.
    - exists mr1, w1. split; [done|].
      apply merge_prefix_inv in H1
        as [(? & _)|(_ & _ & texts & Ht & -> & _)]; [done|].
      rewrite Hw in Ht |- *.
      apply read_texts_contents in Ht as (contents & Hc & ->).
      + rewrite (contents_texts _ _ _ Hc).
        fold (merged_text m all_csv_files p). by apply insert_id.
      + apply Forall_forall. intros f Hin.
        apply elem_of_matched_files in Hin as [_ Hin]. by apply Hsrc. }
  unfold mbind, result_bind. apply IH; [done|].
  intros p' Hp'. apply Hp. by right.
Qed.

(** X13: running [merge_csv_files] again.  When a call with an output
    directory that is not the source directory has returned, the same call
    on the state it left returns the same summary and leaves the file
    system as it is. *)
Theorem merge_again source output prefixes w mr w1 :
  output ≠ source →
  merge_csv_files source output prefixes w = Ok (mr, w1) →
  ∃ w2, merge_csv_files source output prefixes w1 = Ok (mr, w2) ∧
    fs w2 = fs w1.
Proof.
  intros Hne H.
  apply merge_csv_files_inv in H as (m1 & Hm & C).
  assert (∀ q, m1 !! q = Some Dir → fs w1 !! q = Some Dir) as Hkeep.
  { intros q Hq.
    destruct C as [(_ & _ & ->)|[(_ & _ & _ & ->)|(_ & _ & L)]]; [done..|].
    by apply (for_prefixes_dirs _ _ _ _ _ q L). }
  assert (mkdir_parents output (fs w1) = Ok (fs w1)) as Hm1.
  { apply mkdir_go_noop. intros q Hq Hn. apply Hkeep.
    by apply (mkdir_go_dirs [] output (fs w) m1 Hm q). }
  assert (with_fs (fs w1) w1 = w1) as Hw1 by (by destruct w1).
  unfold merge_csv_files, mbind, result_bind. cbv zeta.
  rewrite Hm1, Hw1.
  destruct C as [(Hd & -> & ->)|[(Hd & -> & -> & ->)|(Hd & Hp & L)]].
  - cbn [fs print with_fs]. rewrite Hd. cbn [negb]. by eexists.
  - cbn [fs print with_fs]. rewrite Hd. cbn [negb]. by eexists.
  - assert (is_dir (fs w1) source = true) as ->.
    { apply is_dir_true. apply is_dir_true in Hd as [?|?]; [by left|].
      right. by apply Hkeep. }
    cbn [negb]. destruct prefixes as [|p0 rest]; [done|]. clear Hp.
    set (ps := p0 :: rest) in *.
    assert (∀ f, f ∈ sorted (glob_csv m1 source) → fs w1 !! f = m1 !! f)
      as Hsame.
    { intros f Hf.
      apply (for_prefixes_outside _ _ _ _ _ f L). intros p _.
      by apply (listing_not_output m1 source). }
    assert (sorted (glob_csv (fs w1) source) = sorted (glob_csv m1 source))
      as ->.
    { apply listing_ext. intros x.
      apply (for_prefixes_outside _ _ _ _ _ _ L). intros p _.
      unfold out_path. intros E. apply app_inj_tail in E as [? _]. by subst. }
    set (all := sorted (glob_csv m1 source)) in *.
    assert (∀ f p', f ∈ all → f ≠ out_path output p' ∧ f ≠ []) as Hsrc.
    { intros f p' Hf. by apply (listing_not_output m1 source). }
    assert (∀ p, merged_text (fs w1) all p = merged_text m1 all p) as Htext.
    { intros p. by apply merged_text_ext. }
    destruct (for_prefixes_stable (fs w1) ps all output ∅ w1)
      as (mr2 & w2 & H2 & Hfs); [done| |done| |].
    { apply is_dir_true.
      assert (is_dir m1 output = true) as Ho
        by (by apply (mkdir_parents_is_dir output (fs w))).
      apply is_dir_true in Ho as [?|?]; [by left|]. right. by apply Hkeep. }
    { intros p Hin Hmf. split.
      - rewrite Htext.
        by apply (for_prefixes_merged _ _ _ _ _ _ _ p L Hsrc Hin Hmf).
      - destruct (for_prefixes_content _ _ _ _ _ p L Hsrc Hin Hmf)
          as (contents & Hc & _). cbn [snd fs with_fs] in Hc.
        apply Forall_forall. intros f Hf.
        destruct (proj1 (list_elem_of_lookup _ _) Hf) as [i Hi].
        destruct (Forall2_lookup_l _ _ _ _ _ Hc Hi) as (c & _ & Hfc).
        exists c. rewrite Hsame; [done|].
        by apply elem_of_matched_files in Hf as [_ ?]. }
    exists w2. rewrite H2. split; [|done]. do 2 f_equal.
    apply map_eq. intros p.
    destruct (for_prefixes_summary _ _ _ _ _ _ p L Hsrc) as [A1 B1].
    destruct (for_prefixes_summary _ _ _ _ _ _ p H2 Hsrc) as [A2 B2].
    destruct (decide (p ∈ ps ∧ matched_files all p ≠ [])) as [Hy|Hn].
    + rewrite A1, A2 by done. f_equal. unfold entry_of.
      cbn [fs with_fs]. by rewrite Htext.
    + by rewrite B1, B2.
Qed.

Lemma merge_again_witness :
  ∃ w2, merge_csv_files ["src"] ["out"] ["a"; "c"] sample_final =
          Ok (sample_summary, w2) ∧
    fs w2 = fs sample_final.
Proof.
  apply (merge_again ["src"] ["out"] ["a"; "c"] sample_world).
  - by vm_compute.
  - by vm_compute.
Defined.

End MergeAgain.

(** ** When the merge returns *)

Module MergeReturns.
Import PyStr Re Fs Merge Notions MoreNotions StrFacts FsFacts MergeFacts
  MergeMore.

(** X14: [merge_csv_files] returns exactly when the output directory can
    be made and, if the source then is a directory, no entry selected for
    a requested prefix is a directory and the merged file of no such
    prefix would replace a directory. *)
Theorem merge_returns_iff source output prefixes w :
  (∃ mr w', merge_csv_files source output prefixes w = Ok (mr, w')) ↔
  ∃ m1, mkdir_parents output (fs w) = Ok m1 ∧
    (is_dir m1 source = true →
     ∀ p f, p ∈ prefixes →
       f ∈ matched_files (sorted (glob_csv m1 source)) p →
       m1 !! (output ++ [p +:+ ".csv"]) ≠ Some Dir ∧ m1 !! f ≠ Some Dir).
Proof.
  split.
  - intros (mr & w' & H).
    apply merge_csv_files_inv in H as (m1 & Hm & C). exists m1.
    split; [done|]. intros Hd p f Hp Hf.
    destruct C as [(? & _)|[(_ & -> & _)|(_ & _ & L)]];
      [congruence|by apply elem_of_nil in Hp|].
    assert (matched_files (sorted (glob_csv m1 source)) p ≠ []) as Hmf.
    { intros E. rewrite E in Hf. by apply elem_of_nil in Hf. }
    split.
    + intros Ho.
      destruct (for_prefixes_entries _ _ _ _ _ p L) as [H1 _].
      destruct (H1 Hp Hmf) as (r & c & _ & _ & _ & Hc & _).
      pose proof (for_prefixes_dirs _ _ _ _ _ _ L Ho) as Ho'.
      unfold out_path in *. cbn [snd fs with_fs] in *. congruence.
    + apply (for_prefixes_read _ _ _ _ _ p f L Hp Hf).
      apply elem_of_matched_files in Hf as [_ Hf].
      apply elem_of_listing in Hf as (_ & x & -> & _). by destruct source.
  - intros (m1 & Hm & Hc).
    destruct (merge_csv_files source output prefixes w) as [[mr w']|e] eqn:H;
      [by eexists _, _|exfalso].
    unfold merge_csv_files, mbind, result_bind in H. cbv zeta in H.
    rewrite Hm in H. cbn [fs with_fs] in H.
    destruct (is_dir m1 source) eqn:Hd; cbn [negb] in H; [|done].
    destruct prefixes as [|p0 rest]; [done|].
    apply for_prefixes_raise in H as (-> & p & Hp & Hmf & Hdir).
    + destruct (matched_files (sorted (glob_csv m1 source)) p)
        as [|f0 l] eqn:E; [done|].
      cbn [snd fs with_fs] in Hdir. destruct Hdir as [Ho|(f & Hf & Hfd)].
      * destruct (Hc eq_refl p f0 Hp) as [Hno _]; [rewrite E; by left|].
        by apply Hno.
      * destruct (Hc eq_refl p f Hp) as [_ Hno]; [by rewrite E|].
        by apply Hno.
    + cbn [snd fs with_fs]. by apply (mkdir_parents_is_dir output (fs w)).
    + intros f Hf. cbn [snd fs with_fs].
      apply elem_of_listing in Hf as (Hs & x & -> & _).
      split; [by destruct source|done].
Qed.

End MergeReturns.
